(** * DOM tree construction, clickable-element collection and element
      fingerprinting of browser-use-typescript

    The development embeds five source units:
    - [src/browser_use/dom/service.ts]: [parseNode], [constructDOMTree];
    - [src/browser_use/dom/clickable_element_processor/service.ts]:
      [getClickableElements], [hashDomElement], [getClickableElementsHashes],
      [_textHash], [_getAllTextTillNextClickable];
    - the history tree processor ([HistoryTreeProcessor]):
      [convertDomElementToHistoryElement], [findHistoryElementInTree],
      [compareHistoryElementAndDomElement] and the private hashing helpers;
    - [src/browser_use/dom/index.ts]: [findElements], [findElementById],
      [findElementsByText], [hasParentWithHighlightIndex],
      [getAllTextTillNextClickable], [findFileUploadElement];
    - [src/browser_use/browser/context.ts]: the loop of [getState] that fills
      the selector map.

    Modelling conventions.
    - A JavaScript string is its UTF-8 byte sequence (a Rocq [string]); this is
      what [createHash('sha256').update(str)] digests.
    - A plain JavaScript object used as a dictionary is the list of its own
      properties in creation order, with distinct keys; [Object_entries]
      produces the order in which [Object.entries] enumerates them.
    - Node objects live in a store keyed by the id under which
      [constructDOMTree] saved them in [nodeMap]; a reference to a node object
      is that id.  A child id that is a name inherited from
      [Object.prototype] and no key of the table refers to a built-in object:
      it is a reference without node in the store.  The keys of a raw table
      are taken not to be such names, and [__proto__] not to be listed as a
      child (wiring it would give every object a [parent]); [plain_table]
      states this in the theorems that quantify over raw tables and depend
      on it.
    - The traversals ([getClickableElements], [findHistoryElementInTree], the
      text and file-input searches) are embedded for trees: their argument is
      an element node, as its type says, and the child references they
      follow point to nodes of the store ([closed]).  Their loops step over
      a child reference without node, and a call on a text node finds no
      children; the code throws in both cases.
    - Recursion over the store and the [while] loop over [parent] links take a
      fuel argument; the result [None] stands for a call that returns no
      value: it does not end within the fuel (a cycle in the store), or it
      is applied to something that is not an element node. *)

From Stdlib Require Import ZArith String Ascii List Lia Permutation Sorted.
From stdpp Require Import gmap strings list fin_maps.

(** ** The hash primitive: SHA-256 (FIPS 180-4), hexadecimal digest *)

Module SHA256.

Local Open Scope Z_scope.

Definition word (x : Z) : Z := x mod 4294967296.

Definition rotr (n x : Z) : Z :=
  Z.lor (Z.shiftr x n) (word (Z.shiftl x (32 - n))).

Definition Ch (x y z : Z) : Z :=
  Z.lxor (Z.land x y) (Z.land (Z.lxor x 4294967295) z).

Definition Maj (x y z : Z) : Z :=
  Z.lxor (Z.land x y) (Z.lxor (Z.land x z) (Z.land y z)).

Definition Sigma0 x := Z.lxor (rotr 2 x) (Z.lxor (rotr 13 x) (rotr 22 x)).
Definition Sigma1 x := Z.lxor (rotr 6 x) (Z.lxor (rotr 11 x) (rotr 25 x)).
Definition sigma0 x := Z.lxor (rotr 7 x) (Z.lxor (rotr 18 x) (Z.shiftr x 3)).
Definition sigma1 x := Z.lxor (rotr 17 x) (Z.lxor (rotr 19 x) (Z.shiftr x 10)).

(** The constants are derived as the standard prescribes: the first 32 bits
    of the fractional parts of the cube roots (round constants) and of the
    square roots (initial hash value) of the first primes. *)
Definition is_prime (n : Z) : bool :=
  forallb (fun d => negb (n mod Z.of_nat d =? 0)) (seq 2 (Z.to_nat (Z.sqrt n) - 1)).

Definition primes : list Z :=
  List.filter is_prime (List.map Z.of_nat (seq 2 310)).

(** Largest [r] below [2^n] with [r^3 <= x], found bit by bit. *)
Fixpoint cube_root (n : nat) (x acc : Z) : Z :=
  match n with
  | O => acc
  | S n' =>
      let cand := acc + 2 ^ Z.of_nat n' in
      if cand * cand * cand <=? x then cube_root n' x cand else cube_root n' x acc
  end.

Definition K : list Z :=
  Eval vm_compute in
    List.map (fun p => word (cube_root 40 (p * 2 ^ 96) 0)) (firstn 64 primes).

Definition H0 : list Z :=
  Eval vm_compute in
    List.map (fun p => word (Z.sqrt (p * 2 ^ 64))) (firstn 8 primes).

(** Message bytes, the 0x80 marker, zero fill, and the bit length on 8 bytes. *)
Definition be_bytes (n : nat) (x : Z) : list Z :=
  List.map (fun i => Z.shiftr x (8 * Z.of_nat i) mod 256) (rev (seq 0 n)).

Definition pad (msg : list Z) : list Z :=
  let len := Z.of_nat (length msg) in
  msg ++ [128] ++ repeat 0 (Z.to_nat ((55 - len) mod 64)) ++ be_bytes 8 (8 * len).

Definition be_word (bs : list Z) : Z :=
  fold_left (fun acc b => acc * 256 + b) bs 0.

Fixpoint chunks (fuel n : nat) (l : list Z) : list (list Z) :=
  match fuel, l with
  | O, _ | _, [] => []
  | S f, _ => firstn n l :: chunks f n (skipn n l)
  end.

(** The 64-entry message schedule, kept newest first while it is built. *)
Fixpoint schedule (n : nat) (w : list Z) : list Z :=
  match n with
  | O => w
  | S n' =>
      let x := word (sigma1 (nth 1 w 0) + nth 6 w 0 + sigma0 (nth 14 w 0) + nth 15 w 0) in
      schedule n' (x :: w)
  end.

Definition round (st : list Z) (kw : Z * Z) : list Z :=
  match st with
  | [a; b; c; d; e; f; g; h] =>
      let t1 := word (h + Sigma1 e + Ch e f g + fst kw + snd kw) in
      let t2 := word (Sigma0 a + Maj a b c) in
      [word (t1 + t2); a; b; c; word (d + t1); e; f; g]
  | _ => st
  end.

Definition compress (st : list Z) (block : list Z) : list Z :=
  let w16 := List.map be_word (chunks 16 4 block) in
  let w := rev (schedule 48 (rev w16)) in
  let st' := fold_left round (combine K w) st in
  List.map (fun p => word (fst p + snd p)) (combine st st').

Definition digest (msg : list Z) : list Z :=
  let p := pad msg in
  fold_left compress (chunks (length p) 64 p) H0.

Definition hex_digit (d : Z) : ascii :=
  ascii_of_N (Z.to_N (if d <? 10 then 48 + d else 87 + d)).

Definition hex_word (x : Z) : string :=
  string_of_list_ascii
    (List.map (fun i => hex_digit (Z.shiftr x (4 * Z.of_nat i) mod 16)) (rev (seq 0 8))).

Definition bytes_of_string (s : string) : list Z :=
  List.map (fun a => Z.of_N (N_of_ascii a)) (list_ascii_of_string s).

(** [createHash('sha256').update(s).digest('hex')] *)
Definition hexdigest (s : string) : string :=
  fold_right String.append EmptyString (List.map hex_word (digest (bytes_of_string s))).

End SHA256.

Arguments SHA256.hexdigest : simpl never.


(** ** JavaScript objects used as dictionaries *)

(** Own properties in creation order. *)
Abbreviation JSObject A := (list (string * A)).

Definition is_digit (a : ascii) : bool :=
  let n := N_of_ascii a in (48 <=? n)%N && (n <=? 57)%N.

Fixpoint digits_value (s : string) (acc : N) : option N :=
  match s with
  | EmptyString => Some acc
  | String a s' =>
      if is_digit a then digits_value s' (acc * 10 + (N_of_ascii a - 48))%N else None
  end.

(** A key is an array index when it is the canonical decimal form of an
    integer below 2^32 - 1. *)
Definition array_index (s : string) : option N :=
  match s with
  | EmptyString => None
  | String "0"%char EmptyString => Some 0%N
  | String "0"%char _ => None
  | _ =>
      match digits_value s 0 with
      | Some n => if (n <? 4294967295)%N then Some n else None
      | None => None
      end
  end.

Fixpoint insert_index {A} (i : N) (kv : string * A) (l : list (N * (string * A)))
  : list (N * (string * A)) :=
  match l with
  | [] => [(i, kv)]
  | (j, kv') :: l' =>
      if (i <=? j)%N then (i, kv) :: l else (j, kv') :: insert_index i kv l'
  end.

Definition index_entries {A} (o : JSObject A) : list (N * (string * A)) :=
  fold_right
    (fun kv acc =>
       match array_index kv.1 with
       | Some i => insert_index i kv acc
       | None => acc
       end) [] o.

Definition named_entries {A} (o : JSObject A) : JSObject A :=
  List.filter (fun kv => match array_index kv.1 with None => true | Some _ => false end) o.

(** [Object.entries(o)]: array-index keys in ascending numeric order, then the
    other keys in creation order. *)
Definition Object_entries {A} (o : JSObject A) : list (string * A) :=
  List.map snd (index_entries o) ++ named_entries o.

Definition keys {A} (o : JSObject A) : list string := List.map fst o.

(** ** Data model ([dom/types.ts]) *)

Record ViewportInfo := { vp_width : Z; vp_height : Z }.

Record CoordinateSet := {
  top : Z; left : Z; bottom : Z; right : Z; width : Z; height : Z }.

(** A reference to a node object. *)
Abbreviation NodeRef := string (only parsing).

Record DOMTextNode := {
  text : string;
  t_isVisible : bool;
  t_parent : option NodeRef }.

Record DOMElementNode := {
  tagName : string;
  xpath : string;
  attributes : JSObject string;
  children : list NodeRef;
  isVisible : bool;
  isInteractive : option bool;
  isTopElement : option bool;
  isInViewport : option bool;
  highlightIndex : option Z;
  shadowRoot : option bool;
  parent : option NodeRef;
  viewportCoordinates : option CoordinateSet;
  pageCoordinates : option CoordinateSet;
  viewportInfo : option ViewportInfo;
  isNew : option bool }.

Inductive DOMBaseNode :=
| ElementNode (e : DOMElementNode)
| TextNode (t : DOMTextNode).

(** The node objects of one snapshot, by reference. *)
Abbreviation Store := (gmap string DOMBaseNode).

(** [Record<number, DOMElementNode>]: index to node reference. *)
Abbreviation SelectorMap := (gmap Z string).

Definition children_of (h : Store) (r : NodeRef) : list NodeRef :=
  match h !! r with
  | Some (ElementNode e) => children e
  | _ => []
  end.

Definition parent_of (h : Store) (r : NodeRef) : option NodeRef :=
  match h !! r with
  | Some (ElementNode e) => parent e
  | Some (TextNode t) => t_parent t
  | None => None
  end.

Definition tagName_of (h : Store) (r : NodeRef) : string :=
  match h !! r with
  | Some (ElementNode e) => tagName e
  | _ => EmptyString
  end.

Definition highlightIndex_of (h : Store) (r : NodeRef) : option Z :=
  match h !! r with
  | Some (ElementNode e) => highlightIndex e
  | _ => None
  end.

Definition is_element (h : Store) (r : NodeRef) : bool :=
  match h !! r with
  | Some (ElementNode _) => true
  | _ => false
  end.

(** ** Raw snapshot records (the [any] values of [evalPage.map])

    A record is [null] (or [undefined]), a text record or an element
    record; a field the page script leaves out is [None]. *)

Record RawElement := {
  raw_tagName : string;
  raw_xpath : string;
  raw_attributes : option (JSObject string);
  raw_children : option (list string);
  raw_isVisible : option bool;
  raw_isInteractive : option bool;
  raw_isTopElement : option bool;
  raw_isInViewport : option bool;
  raw_highlightIndex : option Z;
  raw_shadowRoot : option bool;
  raw_viewport : option ViewportInfo }.

Inductive RawNode :=
| RawNull
| RawText (raw_text : string) (raw_visible : bool)
| RawElem (e : RawElement).

Module EvalPage.
Record t := { map : JSObject RawNode; rootId : string }.
End EvalPage.

Inductive result (A : Type) :=
| Ok (a : A)
| Throw (msg : string).
Arguments Ok {A} a.
Arguments Throw {A} msg.

(** ** Tree construction ([dom/service.ts]) *)

Module DOMService.

(** [parseNode]: the typed node, or [None] for a [null] record, and the list
    of child ids. *)
Definition parseNode (nodeData : RawNode) : option DOMBaseNode * list string :=
  match nodeData with
  | RawNull => (None, [])
  | RawText txt vis =>
      (Some (TextNode {| text := txt; t_isVisible := vis; t_parent := None |}), [])
  | RawElem d =>
      let viewportInfo :=
        match raw_viewport d with
        | Some v => Some {| vp_width := vp_width v; vp_height := vp_height v |}
        | None => None
        end in
      let elementNode :=
        {| tagName := raw_tagName d;
           xpath := raw_xpath d;
           attributes := default [] (raw_attributes d);
           children := [];
           isVisible := default false (raw_isVisible d);
           isInteractive := Some (default false (raw_isInteractive d));
           isTopElement := Some (default false (raw_isTopElement d));
           isInViewport := Some (default false (raw_isInViewport d));
           highlightIndex := raw_highlightIndex d;
           shadowRoot := Some (default false (raw_shadowRoot d));
           parent := None;
           viewportCoordinates := None;
           pageCoordinates := None;
           viewportInfo := viewportInfo;
           isNew := None |} in
      let childrenIds := default [] (raw_children d) in
      (Some (ElementNode elementNode), childrenIds)
  end.

(** [childNode.parent = node] *)
Definition set_parent (p : NodeRef) (n : DOMBaseNode) : DOMBaseNode :=
  match n with
  | ElementNode e =>
      ElementNode
        {| tagName := tagName e; xpath := xpath e; attributes := attributes e;
           children := children e; isVisible := isVisible e;
           isInteractive := isInteractive e; isTopElement := isTopElement e;
           isInViewport := isInViewport e; highlightIndex := highlightIndex e;
           shadowRoot := shadowRoot e; parent := Some p;
           viewportCoordinates := viewportCoordinates e;
           pageCoordinates := pageCoordinates e; viewportInfo := viewportInfo e;
           isNew := isNew e |}
  | TextNode t =>
      TextNode {| text := text t; t_isVisible := t_isVisible t; t_parent := Some p |}
  end.

(** [node.children.push(childNode)] *)
Definition push_child (c : NodeRef) (n : DOMBaseNode) : DOMBaseNode :=
  match n with
  | ElementNode e =>
      ElementNode
        {| tagName := tagName e; xpath := xpath e; attributes := attributes e;
           children := children e ++ [c]; isVisible := isVisible e;
           isInteractive := isInteractive e; isTopElement := isTopElement e;
           isInViewport := isInViewport e; highlightIndex := highlightIndex e;
           shadowRoot := shadowRoot e; parent := parent e;
           viewportCoordinates := viewportCoordinates e;
           pageCoordinates := pageCoordinates e; viewportInfo := viewportInfo e;
           isNew := isNew e |}
  | TextNode t => TextNode t
  end.

(** The property names that an object literal inherits from
    [Object.prototype].  Each names a built-in function, [__proto__] the
    prototype object itself. *)
Definition Object_prototype_names : list string :=
  ["constructor"; "__defineGetter__"; "__defineSetter__"; "hasOwnProperty";
   "__lookupGetter__"; "__lookupSetter__"; "isPrototypeOf"; "propertyIsEnumerable";
   "toString"; "valueOf"; "__proto__"; "toLocaleString"].

(** [childId in nodeMap]: an own key, or an inherited name. *)
Definition in_nodeMap (childId : string) (nodeMap : Store) : bool :=
  match nodeMap !! childId with
  | Some _ => true
  | None => bool_decide (childId ∈ Object_prototype_names)
  end.

(** One turn of the inner loop [for (const childId of childrenIds)].  For an
    inherited name that is no key of [nodeMap], [nodeMap[childId]] is the
    built-in object: the assignment to its [parent] leaves every node as it
    is, and the built-in is pushed into [node.children], where the reference
    is an id without node in the store. *)
Definition connect (id : string) (nodeMap : Store) (childId : string) : Store :=
  if in_nodeMap childId nodeMap
  then alter (push_child childId) id (alter (set_parent id) childId nodeMap)
  else nodeMap.

(** One turn of the outer loop over [Object.entries(jsNodeMap)]. *)
Definition process_entry (st : Store * SelectorMap) (entry : string * RawNode)
  : Store * SelectorMap :=
  let '(nodeMap, selectorMap) := st in
  let '(id, nodeData) := entry in
  match parseNode nodeData with
  | (None, _) => st
  | (Some node, childrenIds) =>
      let nodeMap := <[id := node]> nodeMap in
      let selectorMap :=
        match node with
        | ElementNode e =>
            match highlightIndex e with
            | Some i => <[i := id]> selectorMap
            | None => selectorMap
            end
        | TextNode _ => selectorMap
        end in
      let nodeMap :=
        match node with
        | ElementNode _ => fold_left (connect id) childrenIds nodeMap
        | TextNode _ => nodeMap
        end in
      (nodeMap, selectorMap)
  end.

Definition build (jsNodeMap : JSObject RawNode) : Store * SelectorMap :=
  fold_left process_entry (Object_entries jsNodeMap) (∅, ∅).

(** [constructDOMTree]: the root reference and the selector map, together
    with the store the references point into. *)
Definition constructDOMTree (evalPage : EvalPage.t)
  : result (NodeRef * SelectorMap * Store) :=
  let jsNodeMap := EvalPage.map evalPage in
  let jsRootId := EvalPage.rootId evalPage in
  let '(nodeMap, selectorMap) := build jsNodeMap in
  match nodeMap !! jsRootId with
  | Some (ElementNode _) => Ok (jsRootId, selectorMap, nodeMap)
  | _ => Throw "Failed to parse HTML to dictionary"
  end.

End DOMService.

(** ** Clickable element processor
       ([dom/clickable_element_processor/service.ts]) *)

Module ClickableElementProcessor.

Definition _hashString (str : string) : string :=
  SHA256.hexdigest (match str with EmptyString => EmptyString | _ => str end).

(** The [while] loop of [_getParentBranchPath]; [parents] grows by [push]. *)
Fixpoint parents_loop (fuel : nat) (h : Store) (parents : list NodeRef)
    (currentElement : NodeRef) : option (list NodeRef) :=
  match fuel with
  | O => None
  | S f =>
      match parent_of h currentElement with
      | None => Some parents
      | Some p => parents_loop f h (parents ++ [currentElement]) p
      end
  end.

Definition _getParentBranchPath (fuel : nat) (h : Store) (domElement : NodeRef)
  : option (list string) :=
  parents ← parents_loop fuel h [] domElement;
  Some (List.map (tagName_of h) (rev parents)).

(** The local [parentBranchPathString] of [_parentBranchPathHash]. *)
Definition parentBranchPathString (parentBranchPath : list string) : string :=
  String.concat "/" parentBranchPath.

Definition _parentBranchPathHash (parentBranchPath : list string) : string :=
  _hashString (parentBranchPathString parentBranchPath).

(** The local [attributesString] of [_attributesHash]. *)
Definition attributesString (attributes : JSObject string) : string :=
  String.concat ""
    (List.map (fun kv => kv.1 +:+ "=" +:+ kv.2) (Object_entries attributes)).

Definition _attributesHash (attributes : JSObject string) : string :=
  _hashString (attributesString attributes).

Definition _xpathHash (xpath : string) : string := _hashString xpath.

Definition hashDomElement (fuel : nat) (h : Store) (domElement : NodeRef)
  : option string :=
  match h !! domElement with
  | Some (ElementNode e) =>
      parentBranchPath ← _getParentBranchPath fuel h domElement;
      let branchPathHash := _parentBranchPathHash parentBranchPath in
      let attributesHash := _attributesHash (attributes e) in
      let xpathHash := _xpathHash (xpath e) in
      Some (_hashString (branchPathHash +:+ "-" +:+ attributesHash +:+ "-" +:+ xpathHash))
  | _ => None
  end.

(** The [for] loop of [getClickableElements]; [rec] is the recursive call. *)
Fixpoint collect_loop (rec : NodeRef -> option (list NodeRef)) (h : Store)
    (cs : list NodeRef) (clickableElements : list NodeRef) : option (list NodeRef) :=
  match cs with
  | [] => Some clickableElements
  | child :: cs' =>
      match h !! child with
      | Some (ElementNode elementNode) =>
          let clickableElements :=
            match highlightIndex elementNode with
            | Some _ => clickableElements ++ [child]
            | None => clickableElements
            end in
          sub ← rec child;
          collect_loop rec h cs' (clickableElements ++ sub)
      | _ => collect_loop rec h cs' clickableElements
      end
  end.

Fixpoint getClickableElements (fuel : nat) (h : Store) (domElement : NodeRef)
  : option (list NodeRef) :=
  match fuel with
  | O => None
  | S f => collect_loop (getClickableElements f h) h (children_of h domElement) []
  end.

Definition getClickableElementsHashes (fuel : nat) (h : Store) (domElement : NodeRef)
  : option (gset string) :=
  clickableElements ← getClickableElements fuel h domElement;
  hashes ← mapM (hashDomElement fuel h) clickableElements;
  Some (list_to_set hashes).

End ClickableElementProcessor.

(** ** History tree processor *)

Record HashedDomElement := {
  branchPathHash : string;
  attributesHash : string;
  xpathHash : string }.

Record DOMHistoryElement := {
  h_tagName : string;
  h_xpath : string;
  h_highlightIndex : option Z;
  entireParentBranchPath : list string;
  h_attributes : JSObject string;
  h_shadowRoot : bool;
  cssSelector : option string;
  h_pageCoordinates : option CoordinateSet;
  h_viewportCoordinates : option CoordinateSet;
  h_viewportInfo : option ViewportInfo }.

Module HistoryTreeProcessor.

Definition _hashString (str : string) : string :=
  SHA256.hexdigest (match str with EmptyString => EmptyString | _ => str end).

Fixpoint parents_loop (fuel : nat) (h : Store) (parents : list NodeRef)
    (currentElement : NodeRef) : option (list NodeRef) :=
  match fuel with
  | O => None
  | S f =>
      match parent_of h currentElement with
      | None => Some parents
      | Some p => parents_loop f h (parents ++ [currentElement]) p
      end
  end.

Definition _getParentBranchPath (fuel : nat) (h : Store) (domElement : NodeRef)
  : option (list string) :=
  parents ← parents_loop fuel h [] domElement;
  Some (List.map (tagName_of h) (rev parents)).

(** The local [parentBranchPathString] of [_parentBranchPathHash]. *)
Definition parentBranchPathString (parentBranchPath : list string) : string :=
  String.concat "/" parentBranchPath.

Definition _parentBranchPathHash (parentBranchPath : list string) : string :=
  _hashString (parentBranchPathString parentBranchPath).

(** The local [attributesString] of [_attributesHash]. *)
Definition attributesString (attributes : JSObject string) : string :=
  String.concat ""
    (List.map (fun kv => kv.1 +:+ "=" +:+ kv.2) (Object_entries attributes)).

Definition _attributesHash (attributes : JSObject string) : string :=
  _hashString (attributesString attributes).

Definition _xpathHash (xpath : string) : string := _hashString xpath.

Definition _hashDomHistoryElement (domHistoryElement : DOMHistoryElement)
  : HashedDomElement :=
  {| branchPathHash := _parentBranchPathHash (entireParentBranchPath domHistoryElement);
     attributesHash := _attributesHash (h_attributes domHistoryElement);
     xpathHash := _xpathHash (h_xpath domHistoryElement) |}.

Definition _hashDomElement (fuel : nat) (h : Store) (domElement : NodeRef)
  : option HashedDomElement :=
  match h !! domElement with
  | Some (ElementNode e) =>
      parentBranchPath ← _getParentBranchPath fuel h domElement;
      Some {| branchPathHash := _parentBranchPathHash parentBranchPath;
              attributesHash := _attributesHash (attributes e);
              xpathHash := _xpathHash (xpath e) |}
  | _ => None
  end.

Definition convertDomElementToHistoryElement (fuel : nat) (h : Store)
    (domElement : NodeRef) : option DOMHistoryElement :=
  match h !! domElement with
  | Some (ElementNode e) =>
      parentBranchPath ← _getParentBranchPath fuel h domElement;
      let cssSelector := None in
      Some {| h_tagName := tagName e;
              h_xpath := xpath e;
              h_highlightIndex := highlightIndex e;
              entireParentBranchPath := parentBranchPath;
              h_attributes := attributes e;
              h_shadowRoot := default false (shadowRoot e);
              cssSelector := cssSelector;
              h_pageCoordinates := pageCoordinates e;
              h_viewportCoordinates := viewportCoordinates e;
              h_viewportInfo := viewportInfo e |}
  | _ => None
  end.

(** The three-way comparison used by both the search and the predicate. *)
Definition hashes_equal (a b : HashedDomElement) : bool :=
  String.eqb (branchPathHash a) (branchPathHash b)
  && String.eqb (attributesHash a) (attributesHash b)
  && String.eqb (xpathHash a) (xpathHash b).

(** The [for] loop of [processNode]; [rec] is the recursive call.  The outer
    [option] is termination, the inner one is [DOMElementNode | undefined]. *)
Fixpoint search_children (rec : NodeRef -> option (option NodeRef)) (h : Store)
    (cs : list NodeRef) : option (option NodeRef) :=
  match cs with
  | [] => Some None
  | child :: cs' =>
      match h !! child with
      | Some (ElementNode _) =>
          res ← rec child;
          match res with
          | Some found => Some (Some found)
          | None => search_children rec h cs'
          end
      | _ => search_children rec h cs'
      end
  end.

Fixpoint processNode (fuel wfuel : nat) (h : Store)
    (hashedDomHistoryElement : HashedDomElement) (node : NodeRef)
  : option (option NodeRef) :=
  match fuel with
  | O => None
  | S f =>
      let descend :=
        search_children (processNode f wfuel h hashedDomHistoryElement) h
          (children_of h node) in
      match highlightIndex_of h node with
      | Some _ =>
          hashedNode ← _hashDomElement wfuel h node;
          if hashes_equal hashedNode hashedDomHistoryElement
          then Some (Some node)
          else descend
      | None => descend
      end
  end.

(** [fuel] bounds both the recursion depth of [processNode] and the length of
    the [parent] walks made while hashing. *)
Definition findHistoryElementInTree (fuel : nat) (h : Store)
    (domHistoryElement : DOMHistoryElement) (tree : NodeRef)
  : option (option NodeRef) :=
  let hashedDomHistoryElement := _hashDomHistoryElement domHistoryElement in
  processNode fuel fuel h hashedDomHistoryElement tree.

Definition compareHistoryElementAndDomElement (fuel : nat) (h : Store)
    (domHistoryElement : DOMHistoryElement) (domElement : NodeRef) : option bool :=
  let hashedDomHistoryElement := _hashDomHistoryElement domHistoryElement in
  hashedDomElement ← _hashDomElement fuel h domElement;
  Some (String.eqb (branchPathHash hashedDomHistoryElement) (branchPathHash hashedDomElement)
        && String.eqb (attributesHash hashedDomHistoryElement) (attributesHash hashedDomElement)
        && String.eqb (xpathHash hashedDomHistoryElement) (xpathHash hashedDomElement)).

End HistoryTreeProcessor.

(** ** Structural serialization of history records

    The value layer of [JSON.stringify] / [JSON.parse]: properties whose
    value is [undefined] are left out, properties are written in
    [Object.entries] order and recreated in the order they were written. *)

#[warnings="-register-all"]
Inductive JSON :=
| JNull
| JBool (b : bool)
| JNumber (n : Z)
| JString (s : string)
| JArray (l : list JSON)
| JObject (o : JSObject JSON).

(** Property read on a parsed object; a repeated key keeps its last value. *)
Definition obj_get {A} (k : string) (o : JSObject A) : option A :=
  snd <$> List.find (fun kv => String.eqb kv.1 k) (rev o).

Definition as_string (j : JSON) : option string :=
  match j with JString s => Some s | _ => None end.
Definition as_bool (j : JSON) : option bool :=
  match j with JBool b => Some b | _ => None end.
Definition as_number (j : JSON) : option Z :=
  match j with JNumber n => Some n | _ => None end.
Definition as_object (j : JSON) : option (JSObject JSON) :=
  match j with JObject o => Some o | _ => None end.
Definition as_array (j : JSON) : option (list JSON) :=
  match j with JArray l => Some l | _ => None end.

Definition optional_field (k : string) (v : option JSON) : JSObject JSON :=
  match v with Some j => [(k, j)] | None => [] end.

Definition json_of_viewport (v : ViewportInfo) : JSON :=
  JObject [("width", JNumber (vp_width v)); ("height", JNumber (vp_height v))].

Definition json_of_coordinates (c : CoordinateSet) : JSON :=
  JObject [("top", JNumber (top c)); ("left", JNumber (left c));
           ("bottom", JNumber (bottom c)); ("right", JNumber (right c));
           ("width", JNumber (width c)); ("height", JNumber (height c))].

Definition json_of_attributes (a : JSObject string) : JSON :=
  JObject (List.map (fun kv => (kv.1, JString kv.2)) (Object_entries a)).

Definition serialize (d : DOMHistoryElement) : JSON :=
  JObject
    ([("tagName", JString (h_tagName d));
      ("xpath", JString (h_xpath d));
      ("highlightIndex",
        match h_highlightIndex d with Some i => JNumber i | None => JNull end);
      ("entireParentBranchPath", JArray (List.map JString (entireParentBranchPath d)));
      ("attributes", json_of_attributes (h_attributes d));
      ("shadowRoot", JBool (h_shadowRoot d))]
     ++ optional_field "cssSelector" (JString <$> cssSelector d)
     ++ optional_field "pageCoordinates" (json_of_coordinates <$> h_pageCoordinates d)
     ++ optional_field "viewportCoordinates"
          (json_of_coordinates <$> h_viewportCoordinates d)
     ++ optional_field "viewportInfo" (json_of_viewport <$> h_viewportInfo d)).

Definition viewport_of_json (j : JSON) : option ViewportInfo :=
  o ← as_object j;
  w ← obj_get "width" o ≫= as_number;
  ht ← obj_get "height" o ≫= as_number;
  Some {| vp_width := w; vp_height := ht |}.

Definition coordinates_of_json (j : JSON) : option CoordinateSet :=
  o ← as_object j;
  t ← obj_get "top" o ≫= as_number;
  l ← obj_get "left" o ≫= as_number;
  b ← obj_get "bottom" o ≫= as_number;
  r ← obj_get "right" o ≫= as_number;
  w ← obj_get "width" o ≫= as_number;
  ht ← obj_get "height" o ≫= as_number;
  Some {| top := t; left := l; bottom := b; right := r; width := w; height := ht |}.

Definition attributes_of_json (j : JSON) : option (JSObject string) :=
  o ← as_object j;
  mapM (fun kv => v ← as_string kv.2; Some (kv.1, v)) o.

Definition deserialize (j : JSON) : option DOMHistoryElement :=
  o ← as_object j;
  tag ← obj_get "tagName" o ≫= as_string;
  xp ← obj_get "xpath" o ≫= as_string;
  hi ← obj_get "highlightIndex" o;
  path ← (obj_get "entireParentBranchPath" o ≫= as_array) ≫= mapM as_string;
  attrs ← obj_get "attributes" o ≫= attributes_of_json;
  sr ← obj_get "shadowRoot" o ≫= as_bool;
  Some {| h_tagName := tag;
          h_xpath := xp;
          h_highlightIndex := as_number hi;
          entireParentBranchPath := path;
          h_attributes := attrs;
          h_shadowRoot := sr;
          cssSelector := obj_get "cssSelector" o ≫= as_string;
          h_pageCoordinates := obj_get "pageCoordinates" o ≫= coordinates_of_json;
          h_viewportCoordinates := obj_get "viewportCoordinates" o ≫= coordinates_of_json;
          h_viewportInfo := obj_get "viewportInfo" o ≫= viewport_of_json |}.

(** ** [String.prototype.trim] on UTF-8 bytes

    White space and line terminators of the language: U+0009..U+000D,
    U+0020, U+00A0, U+1680, U+2000..U+200A, U+2028, U+2029, U+202F, U+205F,
    U+3000 and U+FEFF, each in its UTF-8 encoding. *)

Definition ascii_space (b : N) : bool :=
  ((9 <=? b) && (b <=? 13) || (b =? 32))%N.

Definition general_space_tail (b : N) : bool :=
  ((128 <=? b) && (b <=? 138) || (b =? 168) || (b =? 169) || (b =? 175))%N.

(** One white-space character at the head of a byte list. *)
Definition space_at_head (l : list N) : option (list N) :=
  match l with
  | 194%N :: 160%N :: r => Some r
  | 225%N :: 154%N :: 128%N :: r => Some r
  | 226%N :: 128%N :: b :: r => if general_space_tail b then Some r else None
  | 226%N :: 129%N :: 159%N :: r => Some r
  | 227%N :: 128%N :: 128%N :: r => Some r
  | 239%N :: 187%N :: 191%N :: r => Some r
  | b :: r => if ascii_space b then Some r else None
  | [] => None
  end.

(** One white-space character at the end, on the reversed byte list. *)
Definition space_at_end (l : list N) : option (list N) :=
  match l with
  | 160%N :: 194%N :: r => Some r
  | 128%N :: 154%N :: 225%N :: r => Some r
  | 128%N :: 128%N :: 227%N :: r => Some r
  | 159%N :: 129%N :: 226%N :: r => Some r
  | 191%N :: 187%N :: 239%N :: r => Some r
  | b :: 128%N :: 226%N :: r =>
      if general_space_tail b then Some r
      else if ascii_space b then Some (128%N :: 226%N :: r) else None
  | b :: r => if ascii_space b then Some r else None
  | [] => None
  end.

Fixpoint strip_spaces (fuel : nat) (one : list N -> option (list N)) (l : list N) : list N :=
  match fuel with
  | O => l
  | S f => match one l with Some r => strip_spaces f one r | None => l end
  end.

Definition js_trim (s : string) : string :=
  let bytes := List.map N_of_ascii (list_ascii_of_string s) in
  let front := strip_spaces (length bytes) space_at_head bytes in
  let back := rev (strip_spaces (length front) space_at_end (rev front)) in
  string_of_list_ascii (List.map ascii_of_N back).

(** [s.includes(t)] *)
Fixpoint js_includes (s t : string) : bool :=
  String.prefix t s
  || match s with
     | EmptyString => false
     | String _ s' => js_includes s' t
     end.

(** ** The rest of the clickable element processor *)

Module ClickableElementText.

(** The [for] loop over [node.children] in [collectText]; [textParts] is
    threaded through. *)
Fixpoint collect_children (rec : NodeRef -> list string -> option (list string))
    (cs : list NodeRef) (textParts : list string) : option (list string) :=
  match cs with
  | [] => Some textParts
  | child :: cs' =>
      textParts' ← rec child textParts;
      collect_children rec cs' textParts'
  end.

Fixpoint collectText (fuel : nat) (h : Store) (element : NodeRef) (maxDepth : Z)
    (node : NodeRef) (currentDepth : Z) (textParts : list string)
  : option (list string) :=
  match fuel with
  | O => None
  | S f =>
      if (negb (maxDepth =? -1) && (currentDepth >? maxDepth))%Z then Some textParts
      else
        match h !! node with
        | Some (ElementNode e) =>
            if negb (String.eqb node element)
               && match highlightIndex e with Some _ => true | None => false end
            then Some textParts
            else
              collect_children
                (fun c parts => collectText f h element maxDepth c (currentDepth + 1)%Z parts)
                (children e) textParts
        | Some (TextNode t) => Some (textParts ++ [text t])
        | None => Some textParts
        end
  end.



End ClickableElementText.

(** ** DOM utilities ([dom/index.ts]) and [controller/types.ts] *)

Record DOMRect := {
  rect_x : Z; rect_y : Z; rect_width : Z; rect_height : Z;
  rect_top : Z; rect_right : Z; rect_bottom : Z; rect_left : Z }.

#[warnings="-register-all"]
Inductive DOMElement := {
  tag : string;
  el_id : option string;
  classes : list string;
  el_text : option string;
  el_children : option (list DOMElement);
  el_attributes : option (JSObject string);
  rect : option DOMRect;
  visible : option bool;
  enabled : option bool }.

Record SimplifiedDOMTree := { tree_root : DOMElement; timestamp : Z }.

Module DomIndex.

Definition adaptDOMElement (element : DOMElement) : DOMElementNode :=
  {| tagName := tag element;
     xpath := "";
     attributes := default [] (el_attributes element);
     children := [];
     isVisible := default false (visible element);
     isInteractive := None; isTopElement := None; isInViewport := None;
     highlightIndex := None; shadowRoot := None;
     parent := None;
     viewportCoordinates := None; pageCoordinates := None; viewportInfo := None;
     isNew := None |}.

(** The [for] loop over [element.children] in [traverse]. *)
Fixpoint traverse_children
    (rec : DOMBaseNode -> list DOMElementNode -> option (list DOMElementNode))
    (h : Store) (cs : list NodeRef) (results : list DOMElementNode)
  : option (list DOMElementNode) :=
  match cs with
  | [] => Some results
  | c :: cs' =>
      match h !! c with
      | Some child =>
          results' ← rec child results;
          traverse_children rec h cs' results'
      | None => traverse_children rec h cs' results
      end
  end.

(** [traverse]; the node is given as an object, its children are references
    into [h]. *)
Fixpoint traverse (fuel : nat) (h : Store) (predicate : DOMElementNode -> option bool)
    (element : DOMBaseNode) (results : list DOMElementNode)
  : option (list DOMElementNode) :=
  match fuel with
  | O => None
  | S f =>
      match element with
      | TextNode _ => Some results
      | ElementNode e =>
          match predicate e with
          | Some hit =>
              let results := if hit then results ++ [e] else results in
              traverse_children (traverse f h predicate) h (children e) results
          | None => None
          end
      end
  end.

(** The adapted root is a fresh object without children: no store is
    needed to traverse it. *)
Definition findElements (fuel : nat) (tree : SimplifiedDOMTree)
    (predicate : DOMElementNode -> option bool) : option (list DOMElementNode) :=
  let adaptedRoot := adaptDOMElement (tree_root tree) in
  traverse fuel ∅ predicate (ElementNode adaptedRoot) [].

Definition findElementById (fuel : nat) (tree : SimplifiedDOMTree) (id : string)
  : option (option DOMElementNode) :=
  elements ←
    findElements fuel tree
      (fun element =>
         Some match obj_get "id" (attributes element) with
              | Some v => String.eqb v id
              | None => false
              end);
  Some (match elements with e :: _ => Some e | [] => None end).

(** The [for] loop of [getElementText]: [textContent += getElementText(child) + ' ']. *)
Fixpoint text_of_children (rec : DOMBaseNode -> option string) (h : Store)
    (cs : list NodeRef) (textContent : string) : option string :=
  match cs with
  | [] => Some textContent
  | c :: cs' =>
      match h !! c with
      | Some child =>
          t ← rec child;
          text_of_children rec h cs' (textContent +:+ t +:+ " ")
      | None => text_of_children rec h cs' textContent
      end
  end.

Fixpoint getElementText (fuel : nat) (h : Store) (element : DOMBaseNode) : option string :=
  match fuel with
  | O => None
  | S f =>
      match element with
      | TextNode t => Some (text t)
      | ElementNode e =>
          textContent ← text_of_children (getElementText f h) h (children e) "";
          Some (js_trim textContent)
      end
  end.

Definition findElementsByText (fuel : nat) (tree : SimplifiedDOMTree) (txt : string)
    (exact : bool) : option (list DOMElementNode) :=
  findElements fuel tree
    (fun element =>
       elementText ← getElementText fuel ∅ (ElementNode element);
       Some match elementText with
            | EmptyString => false
            | _ => if exact then String.eqb elementText txt
                   else js_includes elementText txt
            end).

(** [hasParentWithHighlightIndex]: the [while (current !== null)] loop. *)
Fixpoint hasParent_loop (fuel : nat) (h : Store) (current : option NodeRef) : option bool :=
  match fuel with
  | O => None
  | S f =>
      match current with
      | None => Some false
      | Some c =>
          match highlightIndex_of h c with
          | Some _ => Some true
          | None => hasParent_loop f h (parent_of h c)
          end
      end
  end.

Definition hasParentWithHighlightIndex (fuel : nat) (h : Store) (node : NodeRef)
  : option bool :=
  hasParent_loop fuel h (parent_of h node).

Fixpoint collect_children (rec : NodeRef -> list string -> option (list string))
    (cs : list NodeRef) (textParts : list string) : option (list string) :=
  match cs with
  | [] => Some textParts
  | child :: cs' =>
      textParts' ← rec child textParts;
      collect_children rec cs' textParts'
  end.

Fixpoint collectText (fuel : nat) (h : Store) (element : NodeRef) (maxDepth : Z)
    (node : NodeRef) (currentDepth : Z) (textParts : list string)
  : option (list string) :=
  match fuel with
  | O => None
  | S f =>
      if (negb (maxDepth =? -1) && (currentDepth >? maxDepth))%Z then Some textParts
      else
        match h !! node with
        | Some (ElementNode e) =>
            if negb (String.eqb node element)
               && match highlightIndex e with Some _ => true | None => false end
            then Some textParts
            else
              collect_children
                (fun c parts => collectText f h element maxDepth c (currentDepth + 1)%Z parts)
                (children e) textParts
        | Some (TextNode t) => Some (textParts ++ [text t])
        | None => Some textParts
        end
  end.





End DomIndex.

(** ** The selector map of the browser context ([browser/context.ts]) *)

Record ContextEntry := {
  ce_tagName : string;
  ce_attributes : JSObject string;
  ce_isVisible : bool;
  ce_isInteractive : bool }.

Module BrowserContext.

(** The loop of [getState] that fills [this.selectorMap] from [domTree.map].
    Reading a property of a [null] (or [undefined]) record throws; the
    surrounding [try] catches it and the map keeps what the loop had stored
    so far.  [RawNode] has records as the page script writes them: the other
    falsy values ([false], [0], the empty string), over which this loop
    steps, and a [highlightIndex] that is present but [null], which this loop
    stores under the key ["null"], have no counterpart in it. *)
Fixpoint populate (entries : list (string * RawNode)) (selectorMap : gmap Z ContextEntry)
  : gmap Z ContextEntry :=
  match entries with
  | [] => selectorMap
  | (_, nodeData) :: rest =>
      match nodeData with
      | RawNull => selectorMap
      | RawText _ _ => populate rest selectorMap
      | RawElem typedNodeData =>
          match raw_highlightIndex typedNodeData with
          | Some i =>
              populate rest
                (<[i := {| ce_tagName := raw_tagName typedNodeData;
                           ce_attributes := default [] (raw_attributes typedNodeData);
                           ce_isVisible := default false (raw_isVisible typedNodeData);
                           ce_isInteractive :=
                             default false (raw_isInteractive typedNodeData) |}]>
                   selectorMap)
          | None => populate rest selectorMap
          end
      end
  end.

Definition getState_selectorMap (domTree_map : JSObject RawNode) : gmap Z ContextEntry :=
  populate (Object_entries domTree_map) ∅.

End BrowserContext.
(** ** The read operations as programs over the store

    Collection, fingerprinting, history capture and lookup written once more
    with the store threaded through, every access to a node being a [load]:
    a program returns its value together with the store it leaves. *)

Module StoreProgram.

Definition prog (A : Type) : Type := Store -> option (A * Store).

Definition ret {A} (a : A) : prog A := fun h => Some (a, h).

Definition bind {A B} (m : prog A) (k : A -> prog B) : prog B :=
  fun h => match m h with Some (a, h') => k a h' | None => None end.

(** A call that returns nothing. *)
Definition stuck {A} : prog A := fun _ => None.

(** The node a reference points to. *)
Definition load (r : NodeRef) : prog (option DOMBaseNode) :=
  fun h => Some (h !! r, h).

Notation "x <- m ;; k" := (bind m (fun x => k))
  (at level 100, m at next level, right associativity).

Definition node_parent (n : option DOMBaseNode) : option NodeRef :=
  match n with
  | Some (ElementNode e) => parent e
  | Some (TextNode t) => t_parent t
  | None => None
  end.

Definition node_tagName (n : option DOMBaseNode) : string :=
  match n with
  | Some (ElementNode e) => tagName e
  | _ => EmptyString
  end.

(** The [while] loop of [_getParentBranchPath]. *)
Fixpoint parents_loop (fuel : nat) (parents : list NodeRef) (currentElement : NodeRef)
  : prog (list NodeRef) :=
  match fuel with
  | O => stuck
  | S f =>
      n <- load currentElement ;;
      match node_parent n with
      | None => ret parents
      | Some p => parents_loop f (parents ++ [currentElement]) p
      end
  end.

(** [parents.map(parent => parent.tagName)] *)
Fixpoint tag_names (parents : list NodeRef) : prog (list string) :=
  match parents with
  | [] => ret []
  | p :: ps =>
      n <- load p ;;
      names <- tag_names ps ;;
      ret (node_tagName n :: names)
  end.

Definition _getParentBranchPath (fuel : nat) (domElement : NodeRef) : prog (list string) :=
  parents <- parents_loop fuel [] domElement ;;
  tag_names (rev parents).

(** [ClickableElementProcessor.hashDomElement] *)
Definition hashDomElement (fuel : nat) (domElement : NodeRef) : prog string :=
  n <- load domElement ;;
  match n with
  | Some (ElementNode e) =>
      parentBranchPath <- _getParentBranchPath fuel domElement ;;
      let branchPathHash :=
        ClickableElementProcessor._parentBranchPathHash parentBranchPath in
      let attributesHash := ClickableElementProcessor._attributesHash (attributes e) in
      let xpathHash := ClickableElementProcessor._xpathHash (xpath e) in
      ret (ClickableElementProcessor._hashString
             (branchPathHash +:+ "-" +:+ attributesHash +:+ "-" +:+ xpathHash))
  | _ => stuck
  end.

(** [HistoryTreeProcessor._hashDomElement] *)
Definition _hashDomElement (fuel : nat) (domElement : NodeRef) : prog HashedDomElement :=
  n <- load domElement ;;
  match n with
  | Some (ElementNode e) =>
      parentBranchPath <- _getParentBranchPath fuel domElement ;;
      ret {| branchPathHash := HistoryTreeProcessor._parentBranchPathHash parentBranchPath;
             attributesHash := HistoryTreeProcessor._attributesHash (attributes e);
             xpathHash := HistoryTreeProcessor._xpathHash (xpath e) |}
  | _ => stuck
  end.

Definition convertDomElementToHistoryElement (fuel : nat) (domElement : NodeRef)
  : prog DOMHistoryElement :=
  n <- load domElement ;;
  match n with
  | Some (ElementNode e) =>
      parentBranchPath <- _getParentBranchPath fuel domElement ;;
      ret {| h_tagName := tagName e;
             h_xpath := xpath e;
             h_highlightIndex := highlightIndex e;
             entireParentBranchPath := parentBranchPath;
             h_attributes := attributes e;
             h_shadowRoot := default false (shadowRoot e);
             cssSelector := None;
             h_pageCoordinates := pageCoordinates e;
             h_viewportCoordinates := viewportCoordinates e;
             h_viewportInfo := viewportInfo e |}
  | _ => stuck
  end.

(** The [for] loop of [getClickableElements]. *)
Fixpoint collect_loop (rec : NodeRef -> prog (list NodeRef)) (cs : list NodeRef)
    (clickableElements : list NodeRef) : prog (list NodeRef) :=
  match cs with
  | [] => ret clickableElements
  | child :: cs' =>
      n <- load child ;;
      match n with
      | Some (ElementNode elementNode) =>
          let clickableElements :=
            match highlightIndex elementNode with
            | Some _ => clickableElements ++ [child]
            | None => clickableElements
            end in
          sub <- rec child ;;
          collect_loop rec cs' (clickableElements ++ sub)
      | _ => collect_loop rec cs' clickableElements
      end
  end.

Definition node_children (n : option DOMBaseNode) : list NodeRef :=
  match n with
  | Some (ElementNode e) => children e
  | _ => []
  end.

Fixpoint getClickableElements (fuel : nat) (domElement : NodeRef) : prog (list NodeRef) :=
  match fuel with
  | O => stuck
  | S f =>
      n <- load domElement ;;
      collect_loop (getClickableElements f) (node_children n) []
  end.

(** The [for] loop of [processNode]. *)
Fixpoint search_children (rec : NodeRef -> prog (option NodeRef)) (cs : list NodeRef)
  : prog (option NodeRef) :=
  match cs with
  | [] => ret None
  | child :: cs' =>
      n <- load child ;;
      match n with
      | Some (ElementNode _) =>
          res <- rec child ;;
          match res with
          | Some found => ret (Some found)
          | None => search_children rec cs'
          end
      | _ => search_children rec cs'
      end
  end.

Definition node_highlightIndex (n : option DOMBaseNode) : option Z :=
  match n with
  | Some (ElementNode e) => highlightIndex e
  | _ => None
  end.

Fixpoint processNode (fuel wfuel : nat) (hashedDomHistoryElement : HashedDomElement)
    (node : NodeRef) : prog (option NodeRef) :=
  match fuel with
  | O => stuck
  | S f =>
      n <- load node ;;
      let descend :=
        search_children (processNode f wfuel hashedDomHistoryElement) (node_children n) in
      match node_highlightIndex n with
      | Some _ =>
          hashedNode <- _hashDomElement wfuel node ;;
          if HistoryTreeProcessor.hashes_equal hashedNode hashedDomHistoryElement
          then ret (Some node)
          else descend
      | None => descend
      end
  end.

Definition findHistoryElementInTree (fuel : nat) (domHistoryElement : DOMHistoryElement)
    (tree : NodeRef) : prog (option NodeRef) :=
  let hashedDomHistoryElement :=
    HistoryTreeProcessor._hashDomHistoryElement domHistoryElement in
  processNode fuel fuel hashedDomHistoryElement tree.

(** Writing a node, as the wiring of [constructDOMTree] does. *)
Definition update (r : NodeRef) (f : DOMBaseNode -> DOMBaseNode) : prog unit :=
  fun h => Some (tt, alter f r h).

(** One turn of the inner loop of [constructDOMTree]: the only place where
    the embedded code writes to a node. *)
Definition connect (id childId : string) : prog unit :=
  n <- load childId ;;
  if match n with
     | Some _ => true
     | None => bool_decide (childId ∈ DOMService.Object_prototype_names)
     end
  then
    _ <- update childId (DOMService.set_parent id) ;;
    update id (DOMService.push_child childId)
  else ret tt.

(** What a program that only reads gives: the value, and the store as it
    was. *)
Definition reads {A} (v : option A) (h : Store) : option (A * Store) :=
  match v with Some a => Some (a, h) | None => None end.

End StoreProgram.

(** ** Auxiliary notions used in the statements *)

(** Every entry of [index_entries] carries the index of its own key. *)
Definition indexed {A} (l : list (N * (string * A))) : Prop :=
  Forall (fun x => array_index x.2.1 = Some x.1) l.

Definition ascending {A} (l : list (N * (string * A))) : Prop :=
  Sorted (fun x y => (x.1 <= y.1)%N) l.

(** [lineage h e l]: following [parent] links from [e] reaches a node without
    parent, and [l] lists the nodes met, [e] first and that top node last. *)
Inductive lineage (h : Store) : NodeRef -> list NodeRef -> Prop :=
| lineage_root r : parent_of h r = None -> lineage h r [r]
| lineage_step c p l : parent_of h c = Some p -> lineage h p l -> lineage h c (c :: l).

(** The branch path in the words of the specification: the tag names from
    the root down to the element, both included. *)
Definition spec_branchPath (h : Store) (l : list NodeRef) : list string :=
  List.map (tagName_of h) (rev l).

(** A key without the character [=]. *)
Fixpoint eq_free (s : string) : bool :=
  match s with
  | EmptyString => true
  | String a s' => negb (Ascii.eqb a "=") && eq_free s'
  end.

(** The button-under-body page, ids given children first: the store
    [constructDOMTree] builds for it. *)
Definition body_node (hi : option Z) (cs : list NodeRef) : DOMElementNode :=
  {| tagName := "body"; xpath := "/html/body"; attributes := []; children := cs;
     isVisible := false; isInteractive := Some false; isTopElement := Some false;
     isInViewport := Some false; highlightIndex := hi; shadowRoot := Some false;
     parent := None; viewportCoordinates := None; pageCoordinates := None;
     viewportInfo := None; isNew := None |}.

Definition button_node (p : option NodeRef) : DOMElementNode :=
  {| tagName := "button"; xpath := "/html/body/button"; attributes := [("id", "go")];
     children := []; isVisible := false; isInteractive := Some true;
     isTopElement := Some false; isInViewport := Some false;
     highlightIndex := Some 0%Z; shadowRoot := Some false; parent := p;
     viewportCoordinates := None; pageCoordinates := None; viewportInfo := None;
     isNew := None |}.

Definition page_store : Store :=
  <["0" := ElementNode (button_node (Some "1"))]>
    (<["1" := ElementNode (body_node None ["0"])]> ∅).

(** The same page with a highlight index on the root as well. *)
Definition page_store_root_highlighted : Store :=
  <["0" := ElementNode (button_node (Some "1"))]>
    (<["1" := ElementNode (body_node (Some 1%Z) ["0"])]> ∅).

(** The history record of the button of the example page. *)
Definition button_history : DOMHistoryElement :=
  {| h_tagName := "button"; h_xpath := "/html/body/button";
     h_highlightIndex := Some 0%Z; entireParentBranchPath := ["button"];
     h_attributes := [("id", "go")]; h_shadowRoot := false;
     cssSelector := None; h_pageCoordinates := None;
     h_viewportCoordinates := None; h_viewportInfo := None |}.


(** What a history record reads as once written and parsed again: the
    attribute object is recreated in enumeration order. *)
Definition reparsed (d : DOMHistoryElement) : DOMHistoryElement :=
  {| h_tagName := h_tagName d;
     h_xpath := h_xpath d;
     h_highlightIndex := h_highlightIndex d;
     entireParentBranchPath := entireParentBranchPath d;
     h_attributes := Object_entries (h_attributes d);
     h_shadowRoot := h_shadowRoot d;
     cssSelector := cssSelector d;
     h_pageCoordinates := h_pageCoordinates d;
     h_viewportCoordinates := h_viewportCoordinates d;
     h_viewportInfo := h_viewportInfo d |}.

(** [rk] decreases from every node to its children: the store has no cycle
    along [children]. *)
Definition ranked_down (h : Store) (rk : NodeRef -> nat) : Prop :=
  forall p c, c ∈ children_of h p -> (rk c < rk p)%nat.

(** [rk] increases from every node to its parent and stays below [B]: every
    [parent] chain ends within [B] steps. *)
Definition ranked_up (h : Store) (rk : NodeRef -> nat) (B : nat) : Prop :=
  forall c p, parent_of h c = Some p -> (rk c < rk p /\ rk p < B)%nat.

(** The element nodes strictly below [r], in pre-order, depth first. *)
Fixpoint descendants (fuel : nat) (h : Store) (r : NodeRef) : list NodeRef :=
  match fuel with
  | O => []
  | S f =>
      flat_map (fun c => if is_element h c then c :: descendants f h c else [])
        (children_of h r)
  end.

(** Pre-order, depth first, starting with [r] itself. *)
Definition preorder (fuel : nat) (h : Store) (r : NodeRef) : list NodeRef :=
  r :: descendants fuel h r.

(** [n] is an element node reached from [r] through one or more [children]
    links between element nodes. *)
Inductive descendant (h : Store) : NodeRef -> NodeRef -> Prop :=
| descendant_child r c :
    c ∈ children_of h r -> is_element h c = true -> descendant h r c
| descendant_below r c n :
    c ∈ children_of h r -> is_element h c = true -> descendant h c n ->
    descendant h r n.

Definition highlighted (h : Store) (n : NodeRef) : bool :=
  match highlightIndex_of h n with Some _ => true | None => false end.

(** [n] carries a highlight index and its three hash components equal those
    of [target]. *)
Definition is_match (fuel : nat) (h : Store) (target : HashedDomElement)
    (n : NodeRef) : bool :=
  match highlightIndex_of h n with
  | Some _ =>
      match HistoryTreeProcessor._hashDomElement fuel h n with
      | Some fp => HistoryTreeProcessor.hashes_equal fp target
      | None => false
      end
  | None => false
  end.

(** The composite string [branchPathHash-attributesHash-xpathHash]. *)
Definition composite (fp : HashedDomElement) : string :=
  branchPathHash fp +:+ "-" +:+ attributesHash fp +:+ "-" +:+ xpathHash fp.

(** Element ([Some true]), text ([Some false]) or nothing. *)
Definition node_kind (n : option DOMBaseNode) : option bool :=
  match n with
  | Some (ElementNode _) => Some true
  | Some (TextNode _) => Some false
  | None => None
  end.

Definition raw_kind (d : RawNode) : option bool :=
  match d with
  | RawNull => None
  | RawText _ _ => Some false
  | RawElem _ => Some true
  end.

(** The child ids a raw record lists. *)
Definition declared_children (d : RawNode) : list string := (DOMService.parseNode d).2.

(** All child-id occurrences of a raw table. *)
Definition all_child_ids (es : JSObject RawNode) : list string :=
  flat_map (fun kv => declared_children kv.2) es.

(** The raw record with every occurrence of the id [x] taken out of its
    child-id list. *)
Definition drop_child_id (x : string) (d : RawNode) : RawNode :=
  match d with
  | RawElem e =>
      RawElem
        {| raw_tagName := raw_tagName e; raw_xpath := raw_xpath e;
           raw_attributes := raw_attributes e;
           raw_children :=
             option_map (List.filter (fun c => negb (String.eqb c x))) (raw_children e);
           raw_isVisible := raw_isVisible e; raw_isInteractive := raw_isInteractive e;
           raw_isTopElement := raw_isTopElement e; raw_isInViewport := raw_isInViewport e;
           raw_highlightIndex := raw_highlightIndex e; raw_shadowRoot := raw_shadowRoot e;
           raw_viewport := raw_viewport e |}
  | _ => d
  end.

Definition drop_child_id_everywhere (x : string) (tbl : JSObject RawNode)
  : JSObject RawNode :=
  List.map (fun kv => (kv.1, drop_child_id x kv.2)) tbl.

(** Position of the first occurrence of [k] in [l] ([length l] when absent). *)
Fixpoint index_of (k : string) (l : list string) : nat :=
  match l with
  | [] => O
  | x :: l' => if String.eqb x k then O else S (index_of k l')
  end.

(** The store component of [process_entry]. *)
Definition process_store (h : Store) (entry : string * RawNode) : Store :=
  match DOMService.parseNode entry.2 with
  | (None, _) => h
  | (Some (ElementNode e), childrenIds) =>
      fold_left (DOMService.connect entry.1) childrenIds (<[entry.1 := ElementNode e]> h)
  | (Some (TextNode t), _) => <[entry.1 := TextNode t]> h
  end.

(** Every realized child is a node of the store. *)
Definition closed (h : Store) : Prop :=
  forall p c, c ∈ children_of h p -> is_Some (h !! c).

(** No record lists its own id among its children. *)
Definition no_self_listing (es : JSObject RawNode) : Prop :=
  Forall (fun kv => kv.1 ∉ declared_children kv.2) es.

(** Raw element records with the fields the examples use; all other fields
    are omitted. *)
Definition raw_element (tag xp : string) (attrs : JSObject string)
    (cs : list string) (hi : option Z) (interactive : option bool) : RawNode :=
  RawElem
    {| raw_tagName := tag; raw_xpath := xp; raw_attributes := Some attrs;
       raw_children := Some cs; raw_isVisible := None;
       raw_isInteractive := interactive; raw_isTopElement := None;
       raw_isInViewport := None; raw_highlightIndex := hi; raw_shadowRoot := None;
       raw_viewport := None |}.

Definition raw_body (cs : list string) : RawNode :=
  raw_element "body" "/html/body" [] cs None None.

Definition raw_button : RawNode :=
  raw_element "button" "/html/body/button" [("id", "go")] [] (Some 0%Z) (Some true).

(** The raw table of the concrete scenario: the root is ["0"], the button
    is ["1"]. *)
Definition scenario_page : EvalPage.t :=
  {| EvalPage.map := [("0", raw_body ["1"]); ("1", raw_button)];
     EvalPage.rootId := "0" |}.

(** What [constructDOMTree] leaves in the store for [scenario_page]. *)
Definition scenario_store : Store :=
  <["0" := ElementNode (body_node None [])]>
    (<["1" := ElementNode (button_node None)]> ∅).

(** The same two records with the ids given children first. *)
Definition children_first_page : EvalPage.t :=
  {| EvalPage.map := [("0", raw_button); ("1", raw_body ["0"])];
     EvalPage.rootId := "1" |}.

(** A table in which the id ["0"] is listed by two records. *)
Definition shared_child_page : EvalPage.t :=
  {| EvalPage.map :=
       [("0", raw_element "span" "/html/body/div/span" [] [] None None);
        ("1", raw_element "div" "/html/body/div" [] ["0"] None None);
        ("2", raw_body ["0"; "1"])];
     EvalPage.rootId := "2" |}.

(** A table whose only record lists its own id. *)
Definition self_listing_page : EvalPage.t :=
  {| EvalPage.map := [("0", raw_body ["0"])]; EvalPage.rootId := "0" |}.

(** A table whose root id names a text record, and one whose root id is
    missing. *)
Definition text_root_page : EvalPage.t :=
  {| EvalPage.map := [("0", RawText "hello" true)]; EvalPage.rootId := "0" |}.


(** A table whose root lists the id ["9"], which the table does not hold. *)
Definition dangling_page : EvalPage.t :=
  {| EvalPage.map := [("0", raw_button); ("1", raw_body ["0"; "9"])];
     EvalPage.rootId := "1" |}.

(** ** Auxiliary notions for the further properties *)

(** The node as [parseNode] made it: no children, no parent. *)
Definition static_node (n : DOMBaseNode) : DOMBaseNode :=
  match n with
  | ElementNode e =>
      ElementNode
        {| tagName := tagName e; xpath := xpath e; attributes := attributes e;
           children := []; isVisible := isVisible e;
           isInteractive := isInteractive e; isTopElement := isTopElement e;
           isInViewport := isInViewport e; highlightIndex := highlightIndex e;
           shadowRoot := shadowRoot e; parent := None;
           viewportCoordinates := viewportCoordinates e;
           pageCoordinates := pageCoordinates e; viewportInfo := viewportInfo e;
           isNew := isNew e |}
  | TextNode t =>
      TextNode {| text := text t; t_isVisible := t_isVisible t; t_parent := None |}
  end.

(** A record that [parseNode] turns into a node. *)
Definition live (d : RawNode) : bool :=
  match d with RawNull => false | _ => true end.

(** The ids whose records become nodes. *)
Definition live_keys (es : JSObject RawNode) : list string :=
  keys (List.filter (fun kv => live kv.2) es).

Definition present (h : Store) (c : string) : bool :=
  match h !! c with Some _ => true | None => false end.

(** The highlight index a raw record carries. *)
Definition raw_index (d : RawNode) : option Z :=
  match d with RawElem e => raw_highlightIndex e | _ => None end.

(** Every record lists only ids whose live records come before it in the
    enumeration. *)
Fixpoint children_first_from (seen : list string) (es : list (string * RawNode)) : bool :=
  match es with
  | [] => true
  | (id, d) :: es' =>
      forallb (fun c => bool_decide (c ∈ seen)) (declared_children d)
      && children_first_from (if live d then seen ++ [id] else seen) es'
  end.

Definition children_first (es : list (string * RawNode)) : Prop :=
  children_first_from [] es = true.

(** The selector-map component of [process_entry]. *)
Definition select_entry (sm : SelectorMap) (entry : string * RawNode) : SelectorMap :=
  match raw_index entry.2 with
  | Some i => <[i := entry.1]> sm
  | None => sm
  end.

(** One turn of a loop that stores a value under the highlight index of the
    record, when it has one. *)
Definition assign {V} (val : string -> RawNode -> V) (m : gmap Z V)
    (entry : string * RawNode) : gmap Z V :=
  match raw_index entry.2 with
  | Some i => <[i := val entry.1 entry.2]> m
  | None => m
  end.

(** The entry the browser context stores for a raw record. *)
Definition context_entry (d : RawNode) : ContextEntry :=
  match d with
  | RawElem e =>
      {| ce_tagName := raw_tagName e;
         ce_attributes := default [] (raw_attributes e);
         ce_isVisible := default false (raw_isVisible e);
         ce_isInteractive := default false (raw_isInteractive e) |}
  | _ =>
      {| ce_tagName := ""; ce_attributes := []; ce_isVisible := false;
         ce_isInteractive := false |}
  end.

(** [(id, d)] is the last entry of [es] whose record carries the highlight
    index [i]. *)
Definition last_with_index (i : Z) (id : string) (d : RawNode)
    (es : list (string * RawNode)) : Prop :=
  exists pre post,
    es = pre ++ (id, d) :: post
    /\ raw_index d = Some i
    /\ Forall (fun kv => raw_index kv.2 <> Some i) post.

(** The element records of the example tables. *)
Definition body_record (cs : list string) : RawElement :=
  {| raw_tagName := "body"; raw_xpath := "/html/body"; raw_attributes := Some [];
     raw_children := Some cs; raw_isVisible := None; raw_isInteractive := None;
     raw_isTopElement := None; raw_isInViewport := None; raw_highlightIndex := None;
     raw_shadowRoot := None; raw_viewport := None |}.

Definition button_record : RawElement :=
  {| raw_tagName := "button"; raw_xpath := "/html/body/button";
     raw_attributes := Some [("id", "go")]; raw_children := Some [];
     raw_isVisible := None; raw_isInteractive := Some true;
     raw_isTopElement := None; raw_isInViewport := None;
     raw_highlightIndex := Some 0%Z; raw_shadowRoot := None; raw_viewport := None |}.

(** The store [constructDOMTree] builds for [self_listing_page]. *)
Definition self_listing_store : Store :=
  <["0" := ElementNode
             {| tagName := "body"; xpath := "/html/body"; attributes := [];
                children := ["0"]; isVisible := false; isInteractive := Some false;
                isTopElement := Some false; isInViewport := Some false;
                highlightIndex := None; shadowRoot := Some false;
                parent := Some "0"; viewportCoordinates := None;
                pageCoordinates := None; viewportInfo := None; isNew := None |}]> ∅.




(** A page with a text under the button and a file input beside it. *)
Definition form_button : DOMElementNode :=
  {| tagName := "button"; xpath := "/html/body/button"; attributes := [];
     children := ["t"]; isVisible := true; isInteractive := Some true;
     isTopElement := Some true; isInViewport := Some true;
     highlightIndex := Some 0%Z; shadowRoot := Some false; parent := Some "r";
     viewportCoordinates := None; pageCoordinates := None; viewportInfo := None;
     isNew := None |}.

Definition form_input : DOMElementNode :=
  {| tagName := "input"; xpath := "/html/body/input";
     attributes := [("type", "file")];
     children := []; isVisible := true; isInteractive := Some true;
     isTopElement := Some true; isInViewport := Some true;
     highlightIndex := Some 1%Z; shadowRoot := Some false; parent := Some "r";
     viewportCoordinates := None; pageCoordinates := None; viewportInfo := None;
     isNew := None |}.

Definition form_store : Store :=
  <["t" := TextNode {| text := " Send "; t_isVisible := true; t_parent := Some "b" |}]>
  (<["b" := ElementNode form_button]>
  (<["i" := ElementNode form_input]>
  (<["r" := ElementNode (body_node None ["b"; "i"])]> ∅))).




(** ** The domain of raw tables *)

(** No key of the table is a name inherited from [Object.prototype]. *)
Definition plain_keys (tbl : JSObject RawNode) : Prop :=
  Forall (fun k => k ∉ DOMService.Object_prototype_names) (keys tbl).

(** The tables whose construction the store model follows: no key is an
    inherited name, and [__proto__] is not listed as a child. *)
Definition plain_table (tbl : JSObject RawNode) : Prop :=
  plain_keys tbl /\ "__proto__" ∉ all_child_ids tbl.

(** No listed child id is an inherited name. *)
Definition plain_children (tbl : JSObject RawNode) : Prop :=
  Forall (fun c => c ∉ DOMService.Object_prototype_names) (all_child_ids tbl).

(** The rank of an id for a table with keys [K]: its position counted from
    one, and zero for an id that is no key. *)
Definition table_rank (K : list string) (k : string) : nat :=
  if bool_decide (k ∈ K) then S (index_of k K) else O.

(** ** Notions for the lookup and for the shape of constructed trees *)


(** The pairs (record id, child id) for which the child id names a node at
    the time the record is wired: the record lists the id, and the id is its
    own or that of a live record met before ([seen]). *)
Fixpoint realized_from (seen : list string) (es : list (string * RawNode))
  : list (string * string) :=
  match es with
  | [] => []
  | (p, d) :: es' =>
      List.map (pair p)
        (List.filter (fun c => String.eqb c p || bool_decide (c ∈ seen))
           (match d with RawElem e => default [] (raw_children e) | _ => [] end))
      ++ realized_from (if live d then seen ++ [p] else seen) es'
  end.

Definition realized_links (tbl : JSObject RawNode) : list (string * string) :=
  realized_from [] (Object_entries tbl).

(** No node is wired as a child by two different records. *)
Definition single_parent (tbl : JSObject RawNode) : Prop :=
  forall p p' c,
    (p, c) ∈ realized_links tbl -> (p', c) ∈ realized_links tbl -> p = p'.

(** The node [r] is wired as a child by no record. *)
Definition never_wired (tbl : JSObject RawNode) (r : string) : Prop :=
  forall p, (p, r) ∉ realized_links tbl.

(** A record that lists the inherited name [toString]. *)
Definition inherited_child_page : EvalPage.t :=
  {| EvalPage.map := [("0", raw_body ["toString"])]; EvalPage.rootId := "0" |}.

(** The root record listed as a child by a later record. *)
Definition listed_root_page : EvalPage.t :=
  {| EvalPage.map :=
       [("0", raw_body []);
        ("1", raw_element "div" "/html/div" [] ["0"] None None)];
     EvalPage.rootId := "0" |}.

(** The store built for the records [("0", body listing "9", "toString",
    "1")] and [("1", button)]: of the three listed ids only the inherited
    name is kept. *)
Definition inherited_child_store : Store :=
  <["0" := ElementNode (body_node None ["toString"])]>
    (<["1" := ElementNode (button_node None)]> ∅).

(** * Properties *)

(** ** SHA-256 test vectors *)

Example sha256_empty :
  SHA256.hexdigest "" = "e3b0c44298fc1c149afbf4c8996fb92427ae41e4649b934ca495991b7852b855".
Proof. vm_compute. reflexivity. Qed.

Example sha256_abc :
  SHA256.hexdigest "abc" = "ba7816bf8f01cfea414140de5dae2223b00361a396177a9cb410ff61f20015ad".
Proof. vm_compute. reflexivity. Qed.

Example sha256_two_blocks :
  SHA256.hexdigest
    "The quick brown fox jumps over the lazy dog, and then the lazy dog jumps over the quick brown fox again"
  = "460046765e5edb9016d6a35f42447e93f056843eb2afb67fe298af74682bdc09".
Proof. vm_compute. reflexivity. Qed.

(** ** Enumeration order of object properties *)

Section ObjectEntries.
Context {A : Type}.
Implicit Types (o : JSObject A) (kv : string * A) (l : list (N * (string * A))).

Lemma insert_index_perm i kv l : Permutation (insert_index i kv l) ((i, kv) :: l).
Proof.
  induction l as [|[j kv'] l IH]; simpl; [done|].
  destruct (i <=? j)%N; [done|].
  rewrite IH. apply perm_swap.
Qed.

Lemma Object_entries_perm o : Permutation (Object_entries o) o.
Proof.
  unfold Object_entries. induction o as [|kv o IH]; simpl; [done|].
  destruct (array_index kv.1) as [i|]; simpl.
  - rewrite insert_index_perm. simpl. by rewrite IH.
  - rewrite <- Permutation_middle. by rewrite IH.
Qed.

Lemma Object_entries_keys_perm o : Permutation (keys (Object_entries o)) (keys o).
Proof. unfold keys. apply Permutation_map, Object_entries_perm. Qed.

Lemma Object_entries_elem kv o : kv ∈ Object_entries o <-> kv ∈ o.
Proof. by rewrite Object_entries_perm. Qed.

Lemma Object_entries_keys_elem k o : k ∈ keys (Object_entries o) <-> k ∈ keys o.
Proof. by rewrite Object_entries_keys_perm. Qed.

Lemma Object_entries_NoDup o : NoDup (keys o) -> NoDup (keys (Object_entries o)).
Proof. by rewrite Object_entries_keys_perm. Qed.

Lemma insert_index_indexed i kv l :
  array_index kv.1 = Some i -> indexed l -> indexed (insert_index i kv l).
Proof.
  intros Hi Hl. induction Hl as [|[j kv'] l Hj Hl IH]; simpl.
  - by repeat constructor.
  - destruct (i <=? j)%N; repeat constructor; auto.
Qed.

Lemma index_entries_indexed o : indexed (index_entries o).
Proof.
  induction o as [|kv o IH]; simpl; [constructor|].
  destruct (array_index kv.1) eqn:E; [|done]. by apply insert_index_indexed.
Qed.

Lemma insert_index_ascending i kv l : ascending l -> ascending (insert_index i kv l).
Proof.
  intros Hl. induction Hl as [|[j kv'] l Hl IH Hhd]; simpl.
  - repeat constructor.
  - destruct (i <=? j)%N eqn:E.
    + constructor; [by constructor|]. constructor. simpl. by apply N.leb_le.
    + constructor; [done|].
      apply N.leb_gt in E.
      destruct l as [|[j' kv''] l]; simpl in *.
      * constructor. simpl. lia.
      * destruct (i <=? j')%N; constructor; simpl; [lia|].
        by inversion Hhd.
Qed.

Lemma index_entries_ascending o : ascending (index_entries o).
Proof.
  induction o as [|kv o IH]; simpl; [constructor|].
  destruct (array_index kv.1); [|done]. by apply insert_index_ascending.
Qed.

(** Re-inserting the entries of an ascending list leaves it as it is. *)
Lemma index_entries_sorted l :
  indexed l -> ascending l -> index_entries (List.map snd l) = l.
Proof.
  intros Hi Hs. induction l as [|[i kv] l IH]; simpl; [done|].
  inversion Hi as [|? ? Hx Hi']; subst. inversion Hs as [|? ? Hs' Hhd]; subst.
  simpl in Hx. rewrite Hx. rewrite IH by done.
  destruct l as [|[j kv'] l]; simpl; [done|].
  inversion Hhd as [|? ? Hle]; subst. simpl in Hle.
  by apply N.leb_le in Hle as ->.
Qed.

Lemma index_entries_app o1 o2 :
  index_entries o2 = [] -> index_entries (o1 ++ o2) = index_entries o1.
Proof.
  intros H. unfold index_entries. rewrite fold_right_app.
  fold (index_entries o2). by rewrite H.
Qed.

Lemma index_entries_named o : index_entries (named_entries o) = [].
Proof.
  induction o as [|kv o IH]; simpl; [done|].
  destruct (array_index kv.1) eqn:E; simpl; [done|]. by rewrite E.
Qed.

Lemma named_entries_indexed l : indexed l -> named_entries (List.map snd l) = [].
Proof.
  induction 1 as [|[i kv] l Hx Hl IH]; simpl; [done|].
  simpl in Hx. by rewrite Hx.
Qed.

Lemma named_entries_idemp o : named_entries (named_entries o) = named_entries o.
Proof.
  induction o as [|kv o IH]; simpl; [done|].
  destruct (array_index kv.1) eqn:E; simpl; [done|]. rewrite E. by f_equal.
Qed.

Lemma named_entries_app o1 o2 :
  named_entries (o1 ++ o2) = named_entries o1 ++ named_entries o2.
Proof. apply List.filter_app. Qed.

(** Enumerating an object whose properties were created in enumeration order
    gives the same order again. *)
Lemma Object_entries_idemp o : Object_entries (Object_entries o) = Object_entries o.
Proof.
  unfold Object_entries.
  rewrite index_entries_app by apply index_entries_named.
  rewrite index_entries_sorted
    by (apply index_entries_indexed || apply index_entries_ascending).
  rewrite named_entries_app, named_entries_idemp.
  rewrite named_entries_indexed by apply index_entries_indexed.
  done.
Qed.

End ObjectEntries.

(** ** Branch paths *)

Lemma lineage_nonempty h e l : lineage h e l -> l <> [].
Proof. by destruct 1. Qed.

Lemma lineage_head h e l : lineage h e l -> exists l', l = e :: l'.
Proof. destruct 1; eauto. Qed.

Lemma rev_removelast {A} (l : list A) : rev (removelast l) = tail (rev l).
Proof.
  induction l as [|x l IH] using rev_ind; [done|].
  rewrite removelast_last, rev_app_distr. done.
Qed.

Section BranchPath.
Import HistoryTreeProcessor.

Lemma parents_loop_lineage h e l :
  lineage h e l ->
  forall acc fuel, (length l <= fuel)%nat ->
  parents_loop fuel h acc e = Some (acc ++ removelast l).
Proof.
  induction 1 as [r Hr|c p l Hp Hl IH]; intros acc fuel Hfuel.
  - destruct fuel as [|f]; [simpl in Hfuel; lia|].
    simpl. rewrite Hr. by rewrite app_nil_r.
  - destruct fuel as [|f]; [simpl in Hfuel; lia|].
    simpl in *. rewrite Hp. rewrite IH by lia.
    destruct l as [|x l']; [by apply lineage_nonempty in Hl|].
    by rewrite <- app_assoc.
Qed.

Lemma getParentBranchPath_lineage h e l fuel :
  lineage h e l -> (length l <= fuel)%nat ->
  _getParentBranchPath fuel h e = Some (tail (spec_branchPath h l)).
Proof.
  intros Hl Hfuel. unfold _getParentBranchPath, spec_branchPath.
  rewrite (parents_loop_lineage h e l Hl [] fuel Hfuel). simpl.
  rewrite rev_removelast. by destruct (rev l).
Qed.

End BranchPath.

Lemma processors_parents_loop fuel h acc e :
  ClickableElementProcessor.parents_loop fuel h acc e
  = HistoryTreeProcessor.parents_loop fuel h acc e.
Proof. revert acc e. induction fuel; intros; simpl; [done|]. by destruct (parent_of h e). Qed.

Lemma processors_getParentBranchPath fuel h e :
  ClickableElementProcessor._getParentBranchPath fuel h e
  = HistoryTreeProcessor._getParentBranchPath fuel h e.
Proof.
  unfold ClickableElementProcessor._getParentBranchPath,
    HistoryTreeProcessor._getParentBranchPath.
  by rewrite processors_parents_loop.
Qed.

Lemma hashString_sha256 s : HistoryTreeProcessor._hashString s = SHA256.hexdigest s.
Proof. by destruct s. Qed.

(** ** Attribute strings *)

Lemma string_app_cons (x : ascii) (s t : string) :
  String x s +:+ t = String x (s +:+ t).
Proof. reflexivity. Qed.

Lemma string_app_nil_l (t : string) : "" +:+ t = t.
Proof. reflexivity. Qed.

Lemma string_app_nil_r (s : string) : s +:+ "" = s.
Proof. induction s; rewrite ?string_app_cons; [done|congruence]. Qed.

Lemma string_app_assoc (a b c : string) : (a +:+ b) +:+ c = a +:+ (b +:+ c).
Proof. induction a; rewrite ?string_app_cons, ?string_app_nil_l; congruence. Qed.

Lemma string_app_inv_head (a b c : string) : a +:+ b = a +:+ c -> b = c.
Proof.
  induction a; rewrite ?string_app_cons, ?string_app_nil_l; [done|].
  intros [=]. auto.
Qed.

Lemma concat_empty_cons (x : string) (l : list string) :
  String.concat "" (x :: l) = x +:+ String.concat "" l.
Proof.
  destruct l; cbn [String.concat]; [by rewrite string_app_nil_r|].
  by rewrite string_app_nil_l.
Qed.

Lemma key_value_inj (a b c d : string) :
  eq_free a = true -> eq_free c = true ->
  a +:+ "=" +:+ b = c +:+ "=" +:+ d -> a = c /\ b = d.
Proof.
  revert c. induction a as [|x a IH]; intros [|y c];
    rewrite ?string_app_cons, ?string_app_nil_l; cbn [eq_free].
  - intros _ _ [=]. done.
  - intros _ Hc [= <- _]. done.
  - intros Ha _ [= -> _]. done.
  - intros Ha Hc [= <- Heq].
    apply andb_true_iff in Ha as [_ Ha]. apply andb_true_iff in Hc as [_ Hc].
    destruct (IH c Ha Hc Heq) as [-> ->]. done.
Qed.

(** The concatenation of the [key=value] strings of a list of pairs. *)
Lemma pairs_string_inj (l1 l2 : list (string * string)) :
  Forall (fun k => eq_free k = true) (keys l1) -> NoDup (keys l1) ->
  Permutation l1 l2 ->
  String.concat "" (List.map (fun kv => kv.1 +:+ "=" +:+ kv.2) l1)
  = String.concat "" (List.map (fun kv => kv.1 +:+ "=" +:+ kv.2) l2) ->
  l1 = l2.
Proof.
  revert l2. induction l1 as [|[k v] l1 IH]; intros l2 Hfree Hnd Hperm Heq.
  - by apply Permutation_nil in Hperm.
  - destruct l2 as [|[k' v'] l2]; [by apply Permutation_sym, Permutation_nil in Hperm|].
    simpl in Hfree, Hnd. apply Forall_cons in Hfree as [Hk Hfree].
    apply NoDup_cons in Hnd as [Hnotin Hnd].
    assert (Hin : (k', v') ∈ (k, v) :: l1) by (rewrite Hperm; left).
    assert (Hk' : eq_free k' = true).
    { apply elem_of_cons in Hin as [[= -> ->]|Hin]; [done|].
      rewrite Forall_forall in Hfree. apply Hfree.
      apply (list_elem_of_fmap_2 fst) in Hin. done. }
    cbn [List.map] in Heq. rewrite !concat_empty_cons in Heq. cbn [fst snd] in Heq.
    rewrite !string_app_assoc in Heq.
    apply key_value_inj in Heq as [<- Heq]; [|done..].
    apply elem_of_cons in Hin as [[= <-]|Hin].
    + apply string_app_inv_head in Heq.
      apply Permutation_cons_inv in Hperm. f_equal. by apply IH.
    + exfalso. apply Hnotin. apply (list_elem_of_fmap_2 fst) in Hin. done.
Qed.

Lemma processors_attributesString a :
  ClickableElementProcessor.attributesString a = HistoryTreeProcessor.attributesString a.
Proof. reflexivity. Qed.

(** ** Serialization round trip *)

Lemma mapM_as_string (l : list string) : mapM as_string (List.map JString l) = Some l.
Proof. induction l as [|s l IH]; [done|]. cbn. rewrite IH. done. Qed.

Lemma attributes_of_json_entries (l : list (string * string)) :
  mapM (fun kv : string * JSON => v ← as_string kv.2; Some (kv.1, v))
    (List.map (fun kv : string * string => (kv.1, JString kv.2)) l) = Some l.
Proof. induction l as [|[k v] l IH]; [done|]. cbn. rewrite IH. done. Qed.

Lemma attributes_roundtrip (a : JSObject string) :
  attributes_of_json (json_of_attributes a) = Some (Object_entries a).
Proof. unfold attributes_of_json, json_of_attributes. cbn. apply attributes_of_json_entries. Qed.

Lemma coordinates_roundtrip (c : CoordinateSet) :
  coordinates_of_json (json_of_coordinates c) = Some c.
Proof. by destruct c. Qed.

Lemma viewport_roundtrip (v : ViewportInfo) :
  viewport_of_json (json_of_viewport v) = Some v.
Proof. by destruct v. Qed.

Lemma deserialize_serialize (d : DOMHistoryElement) :
  deserialize (serialize d) = Some (reparsed d).
Proof.
  destruct d as [tag xp hi path attrs sr css pc vc vi].
  unfold deserialize, serialize, reparsed; cbn [h_tagName h_xpath h_highlightIndex
    entireParentBranchPath h_attributes h_shadowRoot cssSelector h_pageCoordinates
    h_viewportCoordinates h_viewportInfo].
  destruct css as [css|], pc as [pc|], vc as [vc|], vi as [vi|], hi as [hi|];
    cbn -[coordinates_of_json json_of_coordinates viewport_of_json json_of_viewport
          attributes_of_json json_of_attributes Object_entries mapM];
    rewrite ?mapM_as_string; cbn -[coordinates_of_json json_of_coordinates viewport_of_json json_of_viewport
          attributes_of_json json_of_attributes Object_entries mapM];
    rewrite ?attributes_roundtrip; cbn -[coordinates_of_json json_of_coordinates viewport_of_json json_of_viewport
          attributes_of_json json_of_attributes Object_entries mapM];
    rewrite ?coordinates_roundtrip, ?viewport_roundtrip; reflexivity.
Qed.

(** ** Fingerprints of elements and of history records *)

Section Fingerprint.
Import HistoryTreeProcessor.

Lemma hashDomElement_lineage h e el l fuel :
  h !! e = Some (ElementNode el) -> lineage h e l -> (length l <= fuel)%nat ->
  _hashDomElement fuel h e
  = Some {| branchPathHash := _parentBranchPathHash (tail (spec_branchPath h l));
            attributesHash := _attributesHash (attributes el);
            xpathHash := _xpathHash (xpath el) |}.
Proof.
  intros He Hl Hfuel. unfold _hashDomElement. rewrite He.
  by rewrite (getParentBranchPath_lineage h e l fuel Hl Hfuel).
Qed.

Lemma convert_lineage h e el l fuel :
  h !! e = Some (ElementNode el) -> lineage h e l -> (length l <= fuel)%nat ->
  convertDomElementToHistoryElement fuel h e
  = Some {| h_tagName := tagName el;
            h_xpath := xpath el;
            h_highlightIndex := highlightIndex el;
            entireParentBranchPath := tail (spec_branchPath h l);
            h_attributes := attributes el;
            h_shadowRoot := default false (shadowRoot el);
            cssSelector := None;
            h_pageCoordinates := pageCoordinates el;
            h_viewportCoordinates := viewportCoordinates el;
            h_viewportInfo := viewportInfo el |}.
Proof.
  intros He Hl Hfuel. unfold convertDomElementToHistoryElement. rewrite He.
  by rewrite (getParentBranchPath_lineage h e l fuel Hl Hfuel).
Qed.

Lemma attributesString_entries a :
  attributesString (Object_entries a) = attributesString a.
Proof. unfold attributesString. by rewrite Object_entries_idemp. Qed.

Lemma hashDomHistoryElement_reparsed d :
  _hashDomHistoryElement (reparsed d) = _hashDomHistoryElement d.
Proof.
  unfold _hashDomHistoryElement, reparsed, _attributesHash; simpl.
  by rewrite attributesString_entries.
Qed.

Lemma hashes_equal_refl a : hashes_equal a a = true.
Proof. unfold hashes_equal. by rewrite !String.eqb_refl. Qed.

Lemma hashes_equal_eq a b : hashes_equal a b = true <-> a = b.
Proof.
  split; [|intros ->; apply hashes_equal_refl].
  unfold hashes_equal. destruct a, b; simpl.
  rewrite !andb_true_iff, !String.eqb_eq. intros [[-> ->] ->]. done.
Qed.

End Fingerprint.

Lemma page_store_lineage : lineage page_store "0" ["0"; "1"].
Proof.
  apply lineage_step with "1"; [reflexivity|].
  apply lineage_root. reflexivity.
Qed.

(** ** Traversals of the store *)

Lemma find_app {A} (p : A -> bool) (l1 l2 : list A) :
  List.find p (l1 ++ l2)
  = match List.find p l1 with Some x => Some x | None => List.find p l2 end.
Proof. induction l1 as [|x l1 IH]; simpl; [done|]. by destruct (p x). Qed.

Lemma filter_app_list {A} (p : A -> bool) (l1 l2 : list A) :
  List.filter p (l1 ++ l2) = List.filter p l1 ++ List.filter p l2.
Proof. apply List.filter_app. Qed.

Lemma is_element_lookup h c : is_element h c = true -> exists el, h !! c = Some (ElementNode el).
Proof. unfold is_element. destruct (h !! c) as [[el|t]|]; try done. eauto. Qed.

Lemma lineage_exists h rk B :
  ranked_up h rk B -> forall e, exists l, lineage h e l /\ (length l <= S (B - rk e))%nat.
Proof.
  intros Hup e. remember (B - rk e)%nat as n eqn:Hn.
  revert e Hn. induction n as [n IH] using lt_wf_ind. intros e Hn.
  destruct (parent_of h e) as [p|] eqn:Hp.
  - destruct (Hup e p Hp) as [H1 H2].
    destruct (IH (B - rk p)%nat ltac:(lia) p eq_refl) as (l & Hl & Hlen).
    exists (e :: l). split; [by eapply lineage_step|]. simpl. lia.
  - exists [e]. split; [by apply lineage_root|]. simpl. lia.
Qed.

Lemma hashDomElement_total h rk B fuel n el :
  ranked_up h rk B -> (B < fuel)%nat -> h !! n = Some (ElementNode el) ->
  exists l, lineage h n l /\ (length l <= fuel)%nat
    /\ HistoryTreeProcessor._hashDomElement fuel h n
       = Some {| branchPathHash :=
                   HistoryTreeProcessor._parentBranchPathHash (tail (spec_branchPath h l));
                 attributesHash := HistoryTreeProcessor._attributesHash (attributes el);
                 xpathHash := HistoryTreeProcessor._xpathHash (xpath el) |}.
Proof.
  intros Hup HB Hn. destruct (lineage_exists h rk B Hup n) as (l & Hl & Hlen).
  exists l. split; [done|]. split; [lia|].
  apply hashDomElement_lineage; [done..|lia].
Qed.

Section Collector.
Import ClickableElementProcessor.

Lemma collect_loop_spec (rec : NodeRef -> option (list NodeRef)) h f cs :
  (forall c, c ∈ cs -> is_element h c = true ->
     rec c = Some (List.filter (highlighted h) (descendants f h c))) ->
  forall acc,
  collect_loop rec h cs acc
  = Some (acc ++ List.filter (highlighted h)
            (flat_map (fun c => if is_element h c then c :: descendants f h c else []) cs)).
Proof.
  induction cs as [|c cs IH]; intros Hrec acc; simpl.
  - by rewrite app_nil_r.
  - assert (Hcs : forall c', c' ∈ cs -> is_element h c' = true ->
              rec c' = Some (List.filter (highlighted h) (descendants f h c'))).
    { intros c' Hc'. apply Hrec. by right. }
    unfold is_element, highlighted, highlightIndex_of in *.
    specialize (Hrec c ltac:(left)).
    destruct (h !! c) as [[el|t]|] eqn:Hc; simpl.
    + rewrite Hrec by done. simpl. rewrite IH by done.
      rewrite Hc. destruct (highlightIndex el); simpl;
        rewrite filter_app_list, <- ?app_assoc; done.
    + by apply IH.
    + by apply IH.
Qed.

Lemma getClickableElements_spec h rk :
  ranked_down h rk ->
  forall fuel r, (rk r < fuel)%nat ->
  getClickableElements fuel h r
  = Some (List.filter (highlighted h) (descendants fuel h r)).
Proof.
  intros Hdown. induction fuel as [|f IH]; intros r Hr; [lia|].
  simpl. rewrite (collect_loop_spec _ h f); [done|].
  intros c Hc _. apply IH. specialize (Hdown r c Hc). lia.
Qed.

End Collector.




Section Search.
Import HistoryTreeProcessor.

Lemma search_children_spec (rec : NodeRef -> option (option NodeRef)) h f cand cs :
  (forall c, c ∈ cs -> is_element h c = true ->
     rec c = Some (List.find cand (preorder f h c))) ->
  search_children rec h cs
  = Some (List.find cand
            (flat_map (fun c => if is_element h c then c :: descendants f h c else []) cs)).
Proof.
  induction cs as [|c cs IH]; intros Hrec; simpl; [done|].
  assert (Hcs : forall c', c' ∈ cs -> is_element h c' = true ->
            rec c' = Some (List.find cand (preorder f h c'))).
  { intros c' Hc'. apply Hrec. by right. }
  specialize (Hrec c ltac:(left)). unfold is_element in *.
  destruct (h !! c) as [[el|t]|] eqn:Hc; simpl.
  - rewrite Hrec by done. simpl. unfold preorder. simpl.
    destruct (cand c); [done|]. rewrite find_app.
    destruct (List.find cand (descendants f h c)); [done|]. by apply IH.
  - by apply IH.
  - by apply IH.
Qed.


End Search.

Section SearchRoot.
Import HistoryTreeProcessor.

Lemma highlightIndex_of_element h r i :
  highlightIndex_of h r = Some i -> exists el, h !! r = Some (ElementNode el).
Proof. unfold highlightIndex_of. destruct (h !! r) as [[el|t]|]; try done. eauto. Qed.

Lemma processNode_spec h rk wfuel target :
  ranked_down h rk ->
  (forall n el, h !! n = Some (ElementNode el) -> is_Some (_hashDomElement wfuel h n)) ->
  forall fuel r, (rk r < fuel)%nat ->
  processNode fuel wfuel h target r
  = Some (List.find (is_match wfuel h target) (preorder fuel h r)).
Proof.
  intros Hdown Hhash. induction fuel as [|f IH]; intros r Hr; [lia|].
  assert (Hdesc :
    search_children (processNode f wfuel h target) h (children_of h r)
    = Some (List.find (is_match wfuel h target) (descendants (S f) h r))).
  { simpl. apply search_children_spec. intros c Hc _. apply IH.
    specialize (Hdown r c Hc). lia. }
  cbn [processNode]. rewrite Hdesc. unfold preorder. cbn [List.find].
  assert (Hm : is_match wfuel h target r
               = match highlightIndex_of h r with
                 | Some _ =>
                     match _hashDomElement wfuel h r with
                     | Some fp => hashes_equal fp target
                     | None => false
                     end
                 | None => false
                 end) by reflexivity.
  rewrite Hm. clear Hm.
  destruct (highlightIndex_of h r) as [i|] eqn:Hhi; [|done].
  destruct (highlightIndex_of_element h r i Hhi) as [el Hlook].
  destruct (Hhash r el Hlook) as [fp Hfp]. rewrite Hfp. simpl.
  by destruct (hashes_equal fp target).
Qed.

End SearchRoot.

(** ** The example page *)






(** ** Hashes of the clickable elements *)

Lemma hashDomElement_composite fuel h n fp :
  HistoryTreeProcessor._hashDomElement fuel h n = Some fp ->
  ClickableElementProcessor.hashDomElement fuel h n = Some (SHA256.hexdigest (composite fp)).
Proof.
  unfold HistoryTreeProcessor._hashDomElement, ClickableElementProcessor.hashDomElement.
  destruct (h !! n) as [[el|t]|]; try done.
  change (ClickableElementProcessor._getParentBranchPath fuel h n)
    with (HistoryTreeProcessor._getParentBranchPath fuel h n).
  destruct (HistoryTreeProcessor._getParentBranchPath fuel h n) as [path|]; [|done].
  simpl. intros [= <-]. f_equal. unfold composite. simpl.
  apply hashString_sha256.
Qed.

Lemma mapM_hashDomElement h rk B fuel els :
  ranked_up h rk B -> (B < fuel)%nat ->
  Forall (fun n => highlighted h n = true) els ->
  exists fps,
    Forall2 (fun n fp => HistoryTreeProcessor._hashDomElement fuel h n = Some fp) els fps
    /\ mapM (ClickableElementProcessor.hashDomElement fuel h) els
       = Some (List.map (fun fp => SHA256.hexdigest (composite fp)) fps).
Proof.
  intros Hup HB. induction 1 as [|n els Hn Hels (fps & Hfps & Hmap)].
  - exists []. by split; [constructor|].
  - unfold highlighted in Hn. destruct (highlightIndex_of h n) as [i|] eqn:Hhi; [|done].
    destruct (highlightIndex_of_element h n i Hhi) as [el Hlook].
    destruct (hashDomElement_total h rk B fuel n el Hup HB Hlook) as (l & _ & _ & Hfp).
    eexists (_ :: fps). split; [constructor; [exact Hfp|exact Hfps]|].
    cbn [mapM]. rewrite (hashDomElement_composite _ _ _ _ Hfp). simpl.
    rewrite Hmap. done.
Qed.

(** ** Updates of the store during construction *)

Section Connect.
Import DOMService.

Lemma node_kind_set_parent p n : node_kind (Some (set_parent p n)) = node_kind (Some n).
Proof. by destruct n. Qed.

Lemma node_kind_push_child c n : node_kind (Some (push_child c n)) = node_kind (Some n).
Proof. by destruct n. Qed.

Lemma node_kind_alter (f : DOMBaseNode -> DOMBaseNode) (h : Store) k r :
  (forall n, node_kind (Some (f n)) = node_kind (Some n)) ->
  node_kind (alter f k h !! r) = node_kind (h !! r).
Proof.
  intros Hf. rewrite lookup_alter. case_decide as Hk; [subst|done].
  destruct (h !! r); simpl; [apply Hf|done].
Qed.

Lemma in_nodeMap_node c (h : Store) : is_Some (h !! c) -> in_nodeMap c h = true.
Proof. unfold in_nodeMap. by intros [n ->]. Qed.

Lemma in_nodeMap_foreign c (h : Store) :
  h !! c = None -> in_nodeMap c h = bool_decide (c ∈ Object_prototype_names).
Proof. unfold in_nodeMap. by intros ->. Qed.

Lemma in_nodeMap_cases c (h : Store) :
  in_nodeMap c h = true ->
  is_Some (h !! c) \/ (h !! c = None /\ c ∈ Object_prototype_names).
Proof.
  unfold in_nodeMap. destruct (h !! c) as [n|]; [eauto|].
  intros Hc. right. split; [done|]. by apply bool_decide_eq_true in Hc.
Qed.

Lemma connect_absent id (h : Store) c :
  h !! c = None -> c ∉ Object_prototype_names -> connect id h c = h.
Proof.
  intros Hc Hn. unfold connect. rewrite in_nodeMap_foreign by done.
  by rewrite bool_decide_eq_false_2.
Qed.

Lemma connect_skip id (h : Store) c : in_nodeMap c h = false -> connect id h c = h.
Proof. unfold connect. by intros ->. Qed.

Lemma connect_kind id (h : Store) c r :
  node_kind (connect id h c !! r) = node_kind (h !! r).
Proof.
  unfold connect. destruct (in_nodeMap c h); [|done].
  rewrite !node_kind_alter; auto using node_kind_set_parent, node_kind_push_child.
Qed.

Lemma kind_is_element (h h' : Store) r :
  node_kind (h' !! r) = node_kind (h !! r) -> is_element h' r = is_element h r.
Proof.
  unfold is_element.
  by destruct (h' !! r) as [[?|?]|], (h !! r) as [[?|?]|].
Qed.

Lemma kind_is_Some (h h' : Store) r :
  node_kind (h' !! r) = node_kind (h !! r) -> is_Some (h' !! r) <-> is_Some (h !! r).
Proof.
  destruct (h' !! r) as [[?|?]|], (h !! r) as [[?|?]|]; simpl; intros [=];
    split; intros [? ?]; eauto; done.
Qed.

Lemma connect_is_Some id (h : Store) c r :
  is_Some (connect id h c !! r) <-> is_Some (h !! r).
Proof. apply kind_is_Some, connect_kind. Qed.

Lemma connect_is_element id (h : Store) c r :
  is_element (connect id h c) r = is_element h r.
Proof. apply kind_is_element, connect_kind. Qed.

Lemma children_set_parent p n :
  match set_parent p n with ElementNode e => children e | TextNode _ => [] end
  = match n with ElementNode e => children e | TextNode _ => [] end.
Proof. by destruct n. Qed.



Lemma connect_children id (h : Store) c r :
  in_nodeMap c h = true -> is_element h id = true ->
  children_of (connect id h c) r
  = if decide (r = id) then children_of h id ++ [c] else children_of h r.
Proof.
  intros Hin Hid. unfold connect. rewrite Hin.
  unfold children_of, is_element in *. rewrite !lookup_alter.
  destruct (h !! id) as [[e|t]|] eqn:Hlook; try done.
  repeat case_decide; subst; rewrite ?Hlook; simpl; try done; try congruence.
  all: by destruct (h !! r) as [[?|?]|].
Qed.

Lemma connect_parent id (h : Store) c r :
  is_Some (h !! c) ->
  parent_of (connect id h c) r = if decide (r = c) then Some id else parent_of h r.
Proof.
  intros [nc Hc]. unfold connect. rewrite in_nodeMap_node by eauto.
  unfold parent_of. rewrite !lookup_alter.
  repeat case_decide; subst; try congruence;
    repeat match goal with
    | H : ?h !! ?k = Some _ |- context [?h !! ?k] => rewrite H in *
    end;
    try (destruct nc; done);
    try (destruct (h !! r) as [[?|?]|]; done).
Qed.

Lemma parent_push_child c n :
  match push_child c n with ElementNode e => parent e | TextNode t => t_parent t end
  = match n with ElementNode e => parent e | TextNode t => t_parent t end.
Proof. by destruct n. Qed.

(** Wiring a built-in object sets no [parent] of a node. *)
Lemma connect_parent_foreign id (h : Store) c r :
  h !! c = None -> parent_of (connect id h c) r = parent_of h r.
Proof.
  intros Hc. unfold connect. destruct (in_nodeMap c h); [|done].
  unfold parent_of. rewrite !lookup_alter.
  repeat case_decide; subst; rewrite ?Hc; simpl; try done.
  all: by destruct (h !! r) as [[?|?]|].
Qed.

Lemma connect_fold_kind id cs (h : Store) r :
  node_kind (fold_left (connect id) cs h !! r) = node_kind (h !! r).
Proof.
  revert h. induction cs as [|c cs IH]; intros h; simpl; [done|].
  by rewrite IH, connect_kind.
Qed.

Lemma process_entry_store st entry : (process_entry st entry).1 = process_store st.1 entry.
Proof.
  destruct st as [h sm], entry as [id d]. unfold process_entry, process_store. simpl.
  by destruct (parseNode d) as [[[e|t]|] cs].
Qed.

Lemma fold_process_store es st :
  (fold_left process_entry es st).1 = fold_left process_store es st.1.
Proof.
  revert st. induction es as [|e es IH]; intros st; simpl; [done|].
  by rewrite IH, process_entry_store.
Qed.

Lemma build_store tbl : (build tbl).1 = fold_left process_store (Object_entries tbl) ∅.
Proof. unfold build. by rewrite fold_process_store. Qed.

Lemma parseNode_kind d : node_kind (parseNode d).1 = raw_kind d.
Proof. by destruct d. Qed.

Lemma process_store_kind (h : Store) id d r :
  node_kind (process_store h (id, d) !! r)
  = if decide (r = id)
    then match raw_kind d with Some b => Some b | None => node_kind (h !! r) end
    else node_kind (h !! r).
Proof.
  unfold process_store. simpl. rewrite <- (parseNode_kind d).
  destruct (parseNode d) as [[[e|t]|] cs]; simpl.
  - rewrite connect_fold_kind, lookup_insert. by repeat case_decide; subst.
  - rewrite lookup_insert. by repeat case_decide; subst.
  - by case_decide.
Qed.

Lemma fold_process_store_absent es (h : Store) r :
  r ∉ keys es -> node_kind (fold_left process_store es h !! r) = node_kind (h !! r).
Proof.
  revert h. induction es as [|[id d] es IH]; intros h Hr; simpl; [done|].
  simpl in Hr. apply not_elem_of_cons in Hr as [Hne Hr].
  rewrite IH by done. rewrite process_store_kind. by rewrite decide_False.
Qed.

Lemma fold_process_store_present es (h : Store) r d b :
  NoDup (keys es) -> (r, d) ∈ es -> raw_kind d = Some b ->
  node_kind (fold_left process_store es h !! r) = Some b.
Proof.
  revert h. induction es as [|[id d'] es IH]; intros h Hnd Hin Hb; simpl.
  - by apply elem_of_nil in Hin.
  - simpl in Hnd. apply NoDup_cons in Hnd as [Hid Hnd].
    apply elem_of_cons in Hin as [[= <- <-]|Hin].
    + rewrite fold_process_store_absent by done.
      rewrite process_store_kind, decide_True by done. by rewrite Hb.
    + by apply IH.
Qed.

Lemma build_kind_absent tbl r :
  r ∉ keys tbl -> (build tbl).1 !! r = None.
Proof.
  intros Hr. rewrite build_store.
  pose proof (fold_process_store_absent (Object_entries tbl) ∅ r) as H.
  rewrite lookup_empty in H. simpl in H.
  destruct (fold_left _ _ _ !! r) as [[?|?]|]; [| |done];
    discriminate H; by rewrite Object_entries_keys_elem.
Qed.

Lemma build_kind_present tbl r d b :
  NoDup (keys tbl) -> (r, d) ∈ tbl -> raw_kind d = Some b ->
  node_kind ((build tbl).1 !! r) = Some b.
Proof.
  intros Hnd Hin Hb. rewrite build_store.
  eapply fold_process_store_present; [by apply Object_entries_NoDup| |done].
  by apply Object_entries_elem.
Qed.

(** *** Inserting a fresh node *)

Lemma connect_fold_is_element id cs (h : Store) r :
  is_element (fold_left (connect id) cs h) r = is_element h r.
Proof. apply kind_is_element, connect_fold_kind. Qed.

Lemma connect_fold_is_Some id cs (h : Store) r :
  is_Some (fold_left (connect id) cs h !! r) <-> is_Some (h !! r).
Proof. apply kind_is_Some, connect_fold_kind. Qed.

Lemma children_of_insert (h : Store) id n r :
  children_of (<[id := n]> h) r
  = if decide (r = id)
    then match n with ElementNode e => children e | TextNode _ => [] end
    else children_of h r.
Proof. unfold children_of. rewrite lookup_insert. by repeat case_decide; subst. Qed.

Lemma parent_of_insert (h : Store) id n r :
  parent_of (<[id := n]> h) r
  = if decide (r = id)
    then match n with ElementNode e => parent e | TextNode t => t_parent t end
    else parent_of h r.
Proof. unfold parent_of. rewrite lookup_insert. by repeat case_decide; subst. Qed.

Lemma parseNode_fresh d n cs :
  parseNode d = (Some n, cs) ->
  match n with ElementNode e => children e | TextNode _ => [] end = []
  /\ match n with ElementNode e => parent e | TextNode t => t_parent t end = None.
Proof. destruct d; simpl; intros [= <- <-]; done. Qed.


(** *** An id absent from the table plays no part in the construction *)

Lemma insert_index_map {A B} (g : A -> B) i (kv : string * A) l :
  insert_index i (kv.1, g kv.2) (List.map (fun x => (x.1, (x.2.1, g x.2.2))) l)
  = List.map (fun x => (x.1, (x.2.1, g x.2.2))) (insert_index i kv l).
Proof.
  induction l as [|[j kv'] l IH]; simpl; [done|].
  destruct (i <=? j)%N; simpl; [done|]. by rewrite IH.
Qed.

Lemma index_entries_map {A B} (g : A -> B) (o : JSObject A) :
  index_entries (List.map (fun kv => (kv.1, g kv.2)) o)
  = List.map (fun x => (x.1, (x.2.1, g x.2.2))) (index_entries o).
Proof.
  induction o as [|kv o IH]; simpl; [done|].
  destruct (array_index kv.1); [|done].
  rewrite IH. apply (insert_index_map g).
Qed.

Lemma named_entries_map {A B} (g : A -> B) (o : JSObject A) :
  named_entries (List.map (fun kv => (kv.1, g kv.2)) o)
  = List.map (fun kv => (kv.1, g kv.2)) (named_entries o).
Proof.
  induction o as [|kv o IH]; simpl; [done|].
  destruct (array_index kv.1); simpl; [done|]. by rewrite IH.
Qed.

Lemma Object_entries_map {A B} (g : A -> B) (o : JSObject A) :
  Object_entries (List.map (fun kv => (kv.1, g kv.2)) o)
  = List.map (fun kv => (kv.1, g kv.2)) (Object_entries o).
Proof.
  unfold Object_entries.
  rewrite index_entries_map, named_entries_map, List.map_app, !List.map_map. done.
Qed.

Lemma parseNode_drop x d :
  parseNode (drop_child_id x d)
  = ((parseNode d).1, List.filter (fun c => negb (String.eqb c x)) (parseNode d).2).
Proof.
  destruct d as [| |e]; simpl; [done..|].
  by destruct (raw_children e).
Qed.

Lemma connect_fold_drop id x cs (h : Store) :
  h !! x = None -> x ∉ Object_prototype_names ->
  fold_left (connect id) (List.filter (fun c => negb (String.eqb c x)) cs) h
  = fold_left (connect id) cs h.
Proof.
  intros Hx Hn. revert h Hx. induction cs as [|c cs IH]; intros h Hx; simpl; [done|].
  destruct (String.eqb_spec c x) as [->|Hne]; simpl.
  - rewrite (connect_absent id h x Hx Hn). by apply IH.
  - apply IH. apply eq_None_not_Some. rewrite connect_is_Some.
    by apply eq_None_not_Some.
Qed.

Lemma process_entry_drop x st id d :
  st.1 !! x = None -> x ∉ Object_prototype_names -> x <> id ->
  process_entry st (id, drop_child_id x d) = process_entry st (id, d).
Proof.
  intros Hx Hn Hne. destruct st as [h sm]. unfold process_entry.
  rewrite parseNode_drop. destruct (parseNode d) as [[n|] cs]; simpl; [|done].
  destruct n as [e|t]; [|done].
  rewrite connect_fold_drop; [done| |done]. by rewrite lookup_insert_ne.
Qed.

Lemma fold_process_entry_drop x es st :
  x ∉ Object_prototype_names -> st.1 !! x = None -> x ∉ keys es ->
  fold_left process_entry (List.map (fun kv => (kv.1, drop_child_id x kv.2)) es) st
  = fold_left process_entry es st.
Proof.
  intros Hn. revert st. induction es as [|[id d] es IH]; intros st Hx Hk; simpl; [done|].
  simpl in Hk. apply not_elem_of_cons in Hk as [Hne Hk].
  rewrite process_entry_drop by done. apply IH; [|done].
  rewrite process_entry_store.
  pose proof (process_store_kind st.1 id d x) as Hkind.
  rewrite decide_False, Hx in Hkind by done.
  by destruct (process_store st.1 (id, d) !! x) as [[?|?]|].
Qed.

Lemma build_drop x tbl :
  x ∉ keys tbl -> x ∉ Object_prototype_names ->
  build (drop_child_id_everywhere x tbl) = build tbl.
Proof.
  intros Hx Hn. unfold build, drop_child_id_everywhere.
  rewrite Object_entries_map. apply fold_process_entry_drop; [done|done|].
  by rewrite Object_entries_keys_elem.
Qed.



(** *** Positions in the enumeration *)

Lemma index_of_le k l : (index_of k l <= length l)%nat.
Proof. induction l as [|x l IH]; simpl; [lia|]. destruct (String.eqb x k); lia. Qed.

Lemma index_of_app_l k pre post :
  k ∈ pre -> (index_of k (pre ++ post) < length pre)%nat.
Proof.
  induction pre as [|x pre IH]; simpl; [by intros ?%elem_of_nil|].
  intros Hk. destruct (String.eqb_spec x k) as [->|Hne]; [lia|].
  apply elem_of_cons in Hk as [->|Hk]; [done|]. specialize (IH Hk). lia.
Qed.

Lemma index_of_app_r k pre post :
  k ∉ pre -> index_of k (pre ++ k :: post) = length pre.
Proof.
  induction pre as [|x pre IH]; simpl.
  - by rewrite String.eqb_refl.
  - intros [Hne Hk]%not_elem_of_cons.
    destruct (String.eqb_spec x k) as [->|_]; [done|]. by rewrite IH.
Qed.

Lemma process_store_dom (h : Store) id d k :
  is_Some (process_store h (id, d) !! k) -> k = id \/ is_Some (h !! k).
Proof.
  intros Hk. destruct (decide (k = id)) as [|Hne]; [by left|right].
  pose proof (process_store_kind h id d k) as Hkind.
  rewrite decide_False in Hkind by done.
  by apply (kind_is_Some _ _ _ Hkind).
Qed.


Lemma all_child_ids_app es1 es2 :
  all_child_ids (es1 ++ es2) = all_child_ids es1 ++ all_child_ids es2.
Proof. unfold all_child_ids. apply flat_map_app. Qed.

Lemma all_child_ids_perm es1 es2 :
  Permutation es1 es2 -> Permutation (all_child_ids es1) (all_child_ids es2).
Proof.
  induction 1 as [|x l l' _ IH|x y l|l l' l'' _ IH1 _ IH2]; simpl.
  - done.
  - unfold all_child_ids in *. simpl. by rewrite IH.
  - unfold all_child_ids. simpl. rewrite !(assoc_L (++)).
    f_equiv. apply Permutation_app_comm.
  - by etrans.
Qed.


End Connect.

(** ** Further properties of the construction *)

Section ConstructMore.
Import DOMService.

Lemma static_set_parent p n : static_node (set_parent p n) = static_node n.
Proof. by destruct n. Qed.

Lemma static_push_child c n : static_node (push_child c n) = static_node n.
Proof. by destruct n. Qed.

Lemma static_alter (f : DOMBaseNode -> DOMBaseNode) (h : Store) k r :
  (forall n, static_node (f n) = static_node n) ->
  static_node <$> (alter f k h !! r) = static_node <$> (h !! r).
Proof.
  intros Hf. rewrite lookup_alter. case_decide as Hk; [subst|done].
  destruct (h !! r); simpl; [by rewrite Hf|done].
Qed.

Lemma connect_static id (h : Store) c r :
  static_node <$> (connect id h c !! r) = static_node <$> (h !! r).
Proof.
  unfold connect. destruct (in_nodeMap c h); [|done].
  rewrite !static_alter; auto using static_set_parent, static_push_child.
Qed.

Lemma connect_fold_static id cs (h : Store) r :
  static_node <$> (fold_left (connect id) cs h !! r) = static_node <$> (h !! r).
Proof.
  revert h. induction cs as [|c cs IH]; intros h; simpl; [done|].
  by rewrite IH, connect_static.
Qed.

Lemma parseNode_static d n : (parseNode d).1 = Some n -> static_node n = n.
Proof. destruct d; simpl; intros [= <-]; done. Qed.

Lemma process_store_static (h : Store) id d r :
  static_node <$> (process_store h (id, d) !! r)
  = if decide (r = id)
    then match (parseNode d).1 with
         | Some n => Some n
         | None => static_node <$> (h !! r)
         end
    else static_node <$> (h !! r).
Proof.
  unfold process_store. simpl.
  pose proof (parseNode_static d) as Hst.
  destruct (parseNode d) as [[n|] cs]; simpl in *.
  - specialize (Hst n eq_refl).
    assert (Hins : static_node <$> (<[id := n]> h !! r)
                   = if decide (r = id) then Some n else static_node <$> (h !! r)).
    { rewrite lookup_insert. destruct (decide (r = id)) as [->|Hne].
      - rewrite decide_True by done. change (Some (static_node n) = Some n).
        by rewrite Hst.
      - by rewrite decide_False by (intros ->; done). }
    destruct n as [e|t]; [by rewrite connect_fold_static|done].
  - by case_decide.
Qed.

Lemma fold_process_store_static_absent es (h : Store) r :
  r ∉ keys es ->
  static_node <$> (fold_left process_store es h !! r) = static_node <$> (h !! r).
Proof.
  revert h. induction es as [|[id d] es IH]; intros h Hr; simpl; [done|].
  simpl in Hr. apply not_elem_of_cons in Hr as [Hne Hr].
  rewrite IH by done. rewrite process_store_static. by rewrite decide_False.
Qed.

Lemma fold_process_store_static es (h : Store) r d :
  NoDup (keys es) -> (r, d) ∈ es ->
  static_node <$> (fold_left process_store es h !! r)
  = match (parseNode d).1 with
    | Some n => Some n
    | None => static_node <$> (h !! r)
    end.
Proof.
  revert h. induction es as [|[id d'] es IH]; intros h Hnd Hin; simpl.
  - by apply elem_of_nil in Hin.
  - simpl in Hnd. apply NoDup_cons in Hnd as [Hid Hnd].
    apply elem_of_cons in Hin as [[= <- <-]|Hin].
    + rewrite fold_process_store_static_absent by done.
      rewrite process_store_static. by rewrite decide_True.
    + rewrite IH by done. rewrite process_store_static.
      rewrite decide_False; [done|]. intros ->. apply Hid.
      apply (list_elem_of_fmap_2 fst) in Hin. done.
Qed.

Lemma build_static tbl r d :
  NoDup (keys tbl) -> (r, d) ∈ tbl ->
  static_node <$> ((build tbl).1 !! r) = (parseNode d).1.
Proof.
  intros Hnd Hin. rewrite build_store.
  rewrite (fold_process_store_static _ _ r d);
    [|by apply Object_entries_NoDup|by apply Object_entries_elem].
  rewrite lookup_empty. by destruct (parseNode d).1.
Qed.

(** *** Which children are realized *)

Lemma present_is_Some (h : Store) c : present h c = true <-> is_Some (h !! c).
Proof.
  unfold present. destruct (h !! c); split; intros H; eauto; try done;
    by destruct H.
Qed.

Lemma present_kind (h h' : Store) c :
  node_kind (h' !! c) = node_kind (h !! c) -> present h' c = present h c.
Proof. unfold present. by destruct (h' !! c) as [[?|?]|], (h !! c) as [[?|?]|]. Qed.

Lemma in_nodeMap_kind (h h' : Store) c :
  node_kind (h' !! c) = node_kind (h !! c) -> in_nodeMap c h' = in_nodeMap c h.
Proof.
  unfold in_nodeMap. by destruct (h' !! c) as [[?|?]|], (h !! c) as [[?|?]|].
Qed.

Lemma in_nodeMap_present (h : Store) c :
  in_nodeMap c h = present h c || bool_decide (c ∈ Object_prototype_names).
Proof. unfold in_nodeMap, present. by destruct (h !! c). Qed.

Lemma connect_children_other id (h : Store) c r :
  r <> id -> children_of (connect id h c) r = children_of h r.
Proof.
  intros Hne. unfold connect. destruct (in_nodeMap c h); [|done].
  unfold children_of. rewrite !lookup_alter.
  rewrite decide_False by done.
  case_decide; subst; [|done]. by destruct (h !! r) as [[?|?]|].
Qed.

Lemma connect_fold_children_other id cs (h : Store) r :
  r <> id -> children_of (fold_left (connect id) cs h) r = children_of h r.
Proof.
  intros Hne. revert h. induction cs as [|c cs IH]; intros h; simpl; [done|].
  by rewrite IH, connect_children_other.
Qed.

Lemma connect_fold_children id cs (h : Store) :
  is_element h id = true ->
  children_of (fold_left (connect id) cs h) id
  = children_of h id ++ List.filter (fun c => in_nodeMap c h) cs.
Proof.
  revert h. induction cs as [|c cs IH]; intros h Hid; simpl.
  - by rewrite app_nil_r.
  - rewrite IH by (by rewrite connect_is_element).
    rewrite (List.filter_ext (fun k => in_nodeMap k (connect id h c))
               (fun k => in_nodeMap k h))
      by (intros k; apply in_nodeMap_kind, connect_kind).
    destruct (in_nodeMap c h) eqn:Hc.
    + rewrite connect_children by done.
      rewrite decide_True by done. by rewrite <- app_assoc.
    + by rewrite connect_skip.
Qed.

Lemma process_store_children_other (h : Store) id d r :
  r <> id -> children_of (process_store h (id, d)) r = children_of h r.
Proof.
  intros Hne. unfold process_store. simpl.
  destruct (parseNode d) as [[[e|t]|] cs]; [| |done].
  - rewrite connect_fold_children_other by done.
    rewrite children_of_insert. by rewrite decide_False.
  - rewrite children_of_insert. by rewrite decide_False.
Qed.

Lemma fold_process_store_children_other es (h : Store) r :
  r ∉ keys es -> children_of (fold_left process_store es h) r = children_of h r.
Proof.
  revert h. induction es as [|[id d] es IH]; intros h Hr; simpl; [done|].
  simpl in Hr. apply not_elem_of_cons in Hr as [Hne Hr].
  rewrite IH by done. by apply process_store_children_other.
Qed.

Lemma process_store_children (h : Store) id (d : RawElement) :
  children_of (process_store h (id, RawElem d)) id
  = List.filter
      (fun c => String.eqb c id || present h c
                || bool_decide (c ∈ Object_prototype_names))
      (default [] (raw_children d)).
Proof.
  unfold process_store. simpl.
  rewrite connect_fold_children by (unfold is_element; by rewrite lookup_insert_eq).
  rewrite children_of_insert, decide_True by done. simpl.
  apply List.filter_ext. intros c. rewrite in_nodeMap_present. f_equal.
  unfold present. rewrite lookup_insert.
  destruct (String.eqb_spec c id) as [->|Hne].
  - by rewrite decide_True.
  - rewrite decide_False by done. done.
Qed.

Lemma process_store_present (h : Store) id d c :
  present (process_store h (id, d)) c
  = present h c || (String.eqb c id && live d).
Proof.
  pose proof (process_store_kind h id d c) as Hk. unfold present.
  destruct (String.eqb_spec c id) as [->|Hne].
  - rewrite decide_True in Hk by done.
    destruct d; simpl in *;
      destruct (process_store h _ !! id) as [[?|?]|], (h !! id) as [[?|?]|];
      simpl in *; congruence.
  - rewrite decide_False in Hk by done. rewrite orb_false_r.
    by destruct (process_store h _ !! c) as [[?|?]|], (h !! c) as [[?|?]|].
Qed.

Lemma live_keys_app es1 es2 : live_keys (es1 ++ es2) = live_keys es1 ++ live_keys es2.
Proof. unfold live_keys, keys. by rewrite List.filter_app, List.map_app. Qed.

Lemma fold_process_store_live es (h : Store) c :
  present (fold_left process_store es h) c
  = present h c || bool_decide (c ∈ live_keys es).
Proof.
  revert h. induction es as [|[id d] es IH]; intros h.
  - simpl. by rewrite orb_false_r.
  - cbn [fold_left]. rewrite IH, process_store_present, <- orb_assoc. f_equal.
    assert (Hlk : live_keys ((id, d) :: es)
                  = (if live d then [id] else []) ++ live_keys es).
    { unfold live_keys. simpl. by destruct (live d). }
    rewrite Hlk.
    destruct (String.eqb_spec c id) as [->|Hne]; destruct (live d); simpl.
    + rewrite bool_decide_eq_true_2; [done|]. by left.
    + done.
    + apply bool_decide_ext. rewrite elem_of_cons.
      split; [by right|by intros [?|?]].
    + done.
Qed.

(** The realized children of an element record are those of its declared
    children that are its own id, the id of a live record enumerated before
    it, or a name inherited from [Object.prototype]. *)
Lemma build_children tbl pre id (d : RawElement) post :
  NoDup (keys tbl) ->
  Object_entries tbl = pre ++ (id, RawElem d) :: post ->
  children_of (build tbl).1 id
  = List.filter
      (fun c => String.eqb c id || bool_decide (c ∈ live_keys pre)
                || bool_decide (c ∈ Object_prototype_names))
      (default [] (raw_children d)).
Proof.
  intros Hnd Hes. rewrite build_store, Hes.
  apply Object_entries_NoDup in Hnd. rewrite Hes in Hnd.
  unfold keys in Hnd. rewrite List.map_app in Hnd. simpl in Hnd.
  apply NoDup_app in Hnd as (_ & _ & Hnd). apply NoDup_cons in Hnd as [Hid _].
  rewrite fold_left_app. simpl.
  rewrite fold_process_store_children_other by done.
  rewrite process_store_children. apply List.filter_ext. intros c.
  rewrite fold_process_store_live. unfold present. by rewrite lookup_empty.
Qed.

End ConstructMore.

(** *** Invariants of the construction, for every table with distinct ids *)

Section ConstructInvariants.
Import DOMService.

Lemma connect_fold_invariant (I : Store -> Prop) id (K : list string) cs :
  forall (h : Store),
  is_element h id = true ->
  (forall k, is_Some (h !! k) -> k <> id -> (index_of k K < index_of id K)%nat) ->
  (forall (h' : Store) c,
     is_element h' id = true -> in_nodeMap c h' = true -> c ∈ cs ->
     (is_Some (h' !! c) -> c <> id -> (index_of c K < index_of id K)%nat) ->
     I h' -> I (connect id h' c)) ->
  I h -> I (fold_left (connect id) cs h).
Proof.
  induction cs as [|c cs IH]; intros h Hid Hpos Hstep Hh; simpl; [done|].
  apply IH.
  - by rewrite connect_is_element.
  - intros k Hk. apply Hpos. by apply connect_is_Some in Hk.
  - intros h' c' ? ? Hc'. apply Hstep; [done..|by right].
  - destruct (in_nodeMap c h) eqn:Hc.
    + apply Hstep; [done|done|by left| |done].
      intros Hsome Hne. by apply Hpos.
    + by rewrite connect_skip.
Qed.

Lemma fold_process_store_invariant (I : Store -> Prop) es :
  NoDup (keys es) ->
  (forall (h : Store) id n,
     id ∈ keys es -> h !! id = None ->
     match n with ElementNode e => children e | TextNode _ => [] end = [] ->
     match n with ElementNode e => parent e | TextNode t => t_parent t end = None ->
     I h -> I (<[id := n]> h)) ->
  (forall (h : Store) id d c,
     (id, d) ∈ es -> c ∈ declared_children d ->
     is_element h id = true -> in_nodeMap c h = true ->
     (is_Some (h !! c) -> c <> id ->
      (index_of c (keys es) < index_of id (keys es))%nat) ->
     I h -> I (connect id h c)) ->
  forall post pre (h : Store),
  es = pre ++ post ->
  (forall k, is_Some (h !! k) -> k ∈ keys pre) ->
  I h ->
  I (fold_left process_store post h).
Proof.
  intros HK Hins Hcon.
  induction post as [|[id d] post IH]; intros pre h Hes Hdom Hh; simpl; [done|].
  assert (Hes' : es = (pre ++ [(id, d)]) ++ post) by (by rewrite <- app_assoc).
  assert (Hidpre : id ∉ keys pre).
  { rewrite Hes in HK. unfold keys in HK. rewrite List.map_app in HK.
    apply NoDup_app in HK as (_ & Hdisj & _).
    intros Hin. apply (Hdisj id Hin). simpl. by left. }
  assert (Hidx : index_of id (keys es) = length (keys pre)).
  { rewrite Hes. unfold keys. rewrite List.map_app. simpl. by apply index_of_app_r. }
  assert (Hnone : h !! id = None).
  { apply eq_None_not_Some. intros Hsome. by apply Hidpre, Hdom. }
  apply (IH (pre ++ [(id, d)])); [done| |].
  - intros k [->|Hk]%process_store_dom; unfold keys; rewrite List.map_app;
      apply elem_of_app; [right; simpl; by left|left; by apply Hdom].
  - unfold process_store. simpl.
    destruct (parseNode d) as [[n|] cs] eqn:Hparse; [|done].
    destruct (parseNode_fresh d n cs Hparse) as [Hch Hpar].
    assert (Hn : I (<[id := n]> h)).
    { apply Hins; [|done..]. rewrite Hes. unfold keys. rewrite List.map_app.
      apply elem_of_app. right. simpl. by left. }
    destruct n as [e|t]; [|done].
    apply (connect_fold_invariant I id (keys es)); [| | |done].
    + unfold is_element. by rewrite lookup_insert_eq.
    + intros k Hk Hne. rewrite lookup_insert_ne in Hk by done.
      rewrite Hidx, Hes. unfold keys at 1. rewrite List.map_app.
      apply index_of_app_l. by apply Hdom.
    + intros h' c Hel Hc Hin Hpos.
      apply (Hcon h' id d c);
        [|by unfold declared_children; rewrite Hparse|done..].
      rewrite Hes. apply elem_of_app. right. by left.
Qed.

Lemma build_invariant (I : Store -> Prop) tbl :
  NoDup (keys tbl) ->
  I ∅ ->
  (forall (h : Store) id n,
     id ∈ keys tbl -> h !! id = None ->
     match n with ElementNode e => children e | TextNode _ => [] end = [] ->
     match n with ElementNode e => parent e | TextNode t => t_parent t end = None ->
     I h -> I (<[id := n]> h)) ->
  (forall (h : Store) id d c,
     (id, d) ∈ tbl -> c ∈ declared_children d ->
     is_element h id = true -> in_nodeMap c h = true ->
     (is_Some (h !! c) -> c <> id ->
      (index_of c (keys (Object_entries tbl)) < index_of id (keys (Object_entries tbl)))%nat) ->
     I h -> I (connect id h c)) ->
  I (build tbl).1.
Proof.
  intros HK H0 Hins Hcon. rewrite build_store.
  apply (fold_process_store_invariant I (Object_entries tbl)) with (pre := []).
  - by apply Object_entries_NoDup.
  - intros h id n Hid. apply Hins. by apply Object_entries_keys_elem.
  - intros h id d c Hin. apply Hcon. by apply Object_entries_elem.
  - done.
  - intros k. rewrite lookup_empty. by intros [? ?].
  - done.
Qed.

(** Every [parent] link has its entry in the parent's [children]. *)
Lemma build_parent_listed tbl :
  NoDup (keys tbl) ->
  forall c p, parent_of (build tbl).1 c = Some p -> c ∈ children_of (build tbl).1 p.
Proof.
  intros HK.
  apply (build_invariant
           (fun h => forall c p, parent_of h c = Some p -> c ∈ children_of h p)); [done|..].
  - intros c p. unfold parent_of. by rewrite lookup_empty.
  - intros h id n _ Hid Hch Hpar IH c p.
    rewrite children_of_insert, parent_of_insert.
    destruct (decide (c = id)) as [->|Hc]; [by rewrite Hpar|].
    intros Hp. apply IH in Hp. rewrite decide_False; [done|].
    intros ->. unfold children_of in Hp. rewrite Hid in Hp. by apply elem_of_nil in Hp.
  - intros h id d c _ _ Hel Hc _ IH c' p.
    rewrite connect_children by done.
    destruct (in_nodeMap_cases c h Hc) as [Hnode|[Hnone _]].
    + rewrite connect_parent by done.
      destruct (decide (c' = c)) as [->|Hne].
      * intros [= <-]. rewrite decide_True by done.
        apply elem_of_app. right. by apply list_elem_of_singleton.
      * intros Hpar. apply IH in Hpar. case_decide; subst; [|done].
        apply elem_of_app. by left.
    + rewrite connect_parent_foreign by done.
      intros Hpar. apply IH in Hpar. case_decide; subst; [|done].
      apply elem_of_app. by left.
Qed.

(** Every realized child is a node of the store or a built-in named by an
    inherited property. *)
Lemma build_children_known tbl :
  NoDup (keys tbl) ->
  forall p c, c ∈ children_of (build tbl).1 p ->
  is_Some ((build tbl).1 !! c) \/ c ∈ Object_prototype_names.
Proof.
  intros HK.
  apply (build_invariant
           (fun h => forall p c, c ∈ children_of h p ->
              is_Some (h !! c) \/ c ∈ Object_prototype_names)); [done|..].
  - intros p c. unfold children_of. rewrite lookup_empty. by intros ?%elem_of_nil.
  - intros h id n _ Hid Hch Hpar IH p c. rewrite children_of_insert.
    case_decide; subst; [rewrite Hch; by intros ?%elem_of_nil|].
    intros [Hc|Hc]%IH; [left|by right].
    rewrite lookup_insert. case_decide; [eauto|done].
  - intros h id d c _ _ Hel Hc _ IH p c'.
    rewrite connect_children by done. rewrite connect_is_Some.
    assert (Hnew : is_Some (h !! c) \/ c ∈ Object_prototype_names).
    { destruct (in_nodeMap_cases c h Hc) as [?|[_ ?]]; auto. }
    case_decide; subst; [|apply IH].
    rewrite elem_of_app, list_elem_of_singleton.
    intros [Hold| ->]; [by apply (IH id)|done].
Qed.

Lemma build_node_key tbl c : is_Some ((build tbl).1 !! c) -> c ∈ keys tbl.
Proof.
  intros Hc. destruct (decide (c ∈ keys tbl)) as [|Hn]; [done|].
  apply build_kind_absent in Hn. rewrite Hn in Hc. by destruct Hc.
Qed.

(** When no child id is an inherited name, every realized child is a node. *)
Lemma build_closed tbl :
  NoDup (keys tbl) -> plain_children tbl -> closed (build tbl).1.
Proof.
  intros HK Hplain.
  apply (build_invariant (fun h => closed h)); [done|..].
  - intros p c. unfold children_of. rewrite lookup_empty. by intros ?%elem_of_nil.
  - intros h id n _ Hid Hch Hpar IH p c. rewrite children_of_insert.
    case_decide; subst; [rewrite Hch; by intros ?%elem_of_nil|].
    intros Hc%IH. rewrite lookup_insert. case_decide; [eauto|done].
  - intros h id d c Hin Hdecl Hel Hc _ IH p c'.
    rewrite connect_children by done. rewrite connect_is_Some.
    assert (Hnew : is_Some (h !! c)).
    { destruct (in_nodeMap_cases c h Hc) as [?|[_ Hname]]; [done|].
      exfalso. unfold plain_children in Hplain. rewrite Forall_forall in Hplain.
      apply (Hplain c); [|done].
      unfold all_child_ids. apply list_elem_of_In, in_flat_map.
      exists (id, d). split; by apply list_elem_of_In. }
    case_decide; subst; [|apply IH].
    rewrite elem_of_app, list_elem_of_singleton.
    intros [Hold| ->]; [by apply (IH id)|done].
Qed.

(** When no key is an inherited name, every realized child that is a node
    has a [parent]. *)
Lemma build_child_has_parent tbl :
  NoDup (keys tbl) -> plain_keys tbl ->
  forall p c, c ∈ children_of (build tbl).1 p -> is_Some ((build tbl).1 !! c) ->
  is_Some (parent_of (build tbl).1 c).
Proof.
  intros HK Hplain.
  cut ((forall p c, c ∈ children_of (build tbl).1 p ->
          is_Some ((build tbl).1 !! c) \/ c ∈ Object_prototype_names)
       /\ (forall p c, c ∈ children_of (build tbl).1 p ->
             is_Some ((build tbl).1 !! c) -> is_Some (parent_of (build tbl).1 c))).
  { by intros [_ ?]. }
  apply (build_invariant
           (fun h => (forall p c, c ∈ children_of h p ->
                        is_Some (h !! c) \/ c ∈ Object_prototype_names)
                     /\ (forall p c, c ∈ children_of h p -> is_Some (h !! c) ->
                           is_Some (parent_of h c)))); [done|..].
  - split; intros p c; unfold children_of; rewrite lookup_empty;
      by intros ?%elem_of_nil.
  - intros h id n Hkey Hid Hch Hpar [IH1 IH2].
    assert (Hfresh : forall p, id ∉ children_of h p).
    { intros p Hin. destruct (IH1 p id Hin) as [Hsome|Hname].
      - rewrite Hid in Hsome. by destruct Hsome.
      - unfold plain_keys in Hplain. rewrite Forall_forall in Hplain.
        by apply (Hplain id). }
    split; intros p c; rewrite children_of_insert;
      (destruct (decide (p = id)) as [->|Hp]; [rewrite Hch; by intros ?%elem_of_nil|]).
    + intros [Hc|Hc]%IH1; [left|by right].
      rewrite lookup_insert. case_decide; [eauto|done].
    + intros Hc Hsome. rewrite parent_of_insert.
      destruct (decide (c = id)) as [->|Hne]; [by destruct (Hfresh p)|].
      rewrite lookup_insert_ne in Hsome by done. by apply (IH2 p).
  - intros h id d c _ _ Hel Hc _ [IH1 IH2].
    split; intros p c'; rewrite connect_children by done; rewrite connect_is_Some.
    + assert (Hnew : is_Some (h !! c) \/ c ∈ Object_prototype_names).
      { destruct (in_nodeMap_cases c h Hc) as [?|[_ ?]]; auto. }
      case_decide; subst; [|apply IH1].
      rewrite elem_of_app, list_elem_of_singleton.
      intros [Hold| ->]; [by apply (IH1 id)|done].
    + destruct (in_nodeMap_cases c h Hc) as [Hnode|[Hnone _]].
      * rewrite connect_parent by done.
        destruct (decide (c' = c)) as [->|Hne]; [eauto|].
        case_decide; subst; [|apply IH2].
        rewrite elem_of_app, list_elem_of_singleton.
        intros [Hold| ->]; [by apply (IH2 id)|done].
      * rewrite connect_parent_foreign by done.
        case_decide; subst; [|apply IH2].
        rewrite elem_of_app, list_elem_of_singleton.
        intros [Hold| ->]; [by apply (IH2 id)|].
        intros Hsome. rewrite Hnone in Hsome. by destruct Hsome.
Qed.

(** Without self-listing every realized child that is no inherited name
    comes before its parent in the enumeration. *)
Lemma build_children_before tbl :
  NoDup (keys tbl) -> no_self_listing tbl ->
  forall p c, c ∈ children_of (build tbl).1 p -> c ∉ Object_prototype_names ->
  (index_of c (keys (Object_entries tbl)) < index_of p (keys (Object_entries tbl)))%nat.
Proof.
  intros HK Hself.
  apply (build_invariant
           (fun h => forall p c, c ∈ children_of h p -> c ∉ Object_prototype_names ->
              (index_of c (keys (Object_entries tbl))
               < index_of p (keys (Object_entries tbl)))%nat)); [done|..].
  - intros p c. unfold children_of. rewrite lookup_empty. by intros ?%elem_of_nil.
  - intros h id n _ Hid Hch Hpar IH p c. rewrite children_of_insert.
    case_decide; subst; [rewrite Hch; by intros ?%elem_of_nil|apply IH].
  - intros h id d c Hin Hc Hel Hsome Hpos IH p c'.
    rewrite connect_children by done.
    case_decide; subst; [|apply IH].
    rewrite elem_of_app, list_elem_of_singleton. intros [Hold| ->]; [by apply IH|].
    intros Hname. apply Hpos.
    + by destruct (in_nodeMap_cases c h Hsome) as [?|[_ ?]].
    + intros ->. unfold no_self_listing in Hself. rewrite Forall_forall in Hself.
      by apply (Hself _ Hin).
Qed.

(** The rank of an id: its position in the enumeration, counted from one;
    an id that is no key, a built-in as child, has rank zero. *)
Lemma table_rank_key k K : k ∈ K -> table_rank K k = S (index_of k K).
Proof. intros Hk. unfold table_rank. by rewrite bool_decide_eq_true_2. Qed.

Lemma table_rank_le k K : (table_rank K k <= length K)%nat.
Proof.
  unfold table_rank. case_bool_decide as Hk; [|lia].
  apply list_elem_of_split in Hk as (pre & post & ->).
  destruct (decide (k ∈ pre)) as [Hin|Hout].
  - pose proof (index_of_app_l k pre (k :: post) Hin). rewrite length_app. simpl. lia.
  - rewrite index_of_app_r by done. rewrite length_app. simpl. lia.
Qed.

Lemma build_ranked tbl :
  NoDup (keys tbl) -> plain_keys tbl -> no_self_listing tbl ->
  ranked_down (build tbl).1 (table_rank (keys (Object_entries tbl)))
  /\ ranked_up (build tbl).1 (table_rank (keys (Object_entries tbl)))
       (S (length tbl)).
Proof.
  intros HK Hplain Hself.
  set (K := keys (Object_entries tbl)).
  assert (Hkey : forall k, is_Some ((build tbl).1 !! k) -> k ∈ K).
  { intros k Hk. apply Object_entries_keys_elem. by apply build_node_key. }
  assert (Hparent : forall p c, c ∈ children_of (build tbl).1 p -> p ∈ K).
  { intros p c Hc. apply Hkey. unfold children_of in Hc.
    destruct ((build tbl).1 !! p); [eauto|by apply elem_of_nil in Hc]. }
  assert (Hdown : ranked_down (build tbl).1 (table_rank K)).
  { intros p c Hc. rewrite (table_rank_key p) by by eapply Hparent.
    destruct (build_children_known tbl HK p c Hc) as [Hnode|Hname].
    - rewrite (table_rank_key c) by by apply Hkey.
      apply -> Nat.succ_lt_mono. apply build_children_before; [done..|].
      intros Hname. unfold plain_keys in Hplain. rewrite Forall_forall in Hplain.
      apply (Hplain c); [|done]. by apply build_node_key.
    - unfold table_rank at 1. case_bool_decide as HcK; [|lia].
      exfalso. unfold plain_keys in Hplain. rewrite Forall_forall in Hplain.
      apply (Hplain c); [|done]. by apply Object_entries_keys_elem. }
  split; [done|].
  intros c p Hp. apply build_parent_listed in Hp; [|done].
  split; [by apply Hdown|].
  pose proof (table_rank_le p K) as Hle.
  assert (Hlen : length K = length tbl).
  { unfold K, keys. rewrite length_map.
    apply Permutation_length, Object_entries_perm. }
  lia.
Qed.

End ConstructInvariants.

(** *** The selector map *)

Section SelectorMap.
Import DOMService.

Lemma fold_assign_lookup {V} (val : string -> RawNode -> V) es :
  forall (m : gmap Z V) i v,
  fold_left (assign val) es m !! i = Some v
  <-> (exists id d, last_with_index i id d es /\ v = val id d)
      \/ (Forall (fun kv => raw_index kv.2 <> Some i) es /\ m !! i = Some v).
Proof.
  induction es as [|[k d] es IH]; intros m i v; simpl.
  - split.
    + intros Hm. right. by split; [constructor|].
    + intros [(id & d & (pre & post & Hes & _) & _)|[_ Hm]]; [|done].
      by destruct pre.
  - rewrite IH. unfold assign. simpl. split.
    + intros [(id & d' & (pre & post & -> & Hi & Hpost) & ->)|[Hall Hm]].
      * left. exists id, d'. split; [|done]. by exists ((k, d) :: pre), post.
      * destruct (raw_index d) as [j|] eqn:Hj.
        -- destruct (decide (j = i)) as [->|Hne].
           ++ rewrite lookup_insert_eq in Hm. injection Hm as <-.
              left. exists k, d. split; [|done]. by exists [], es.
           ++ rewrite lookup_insert_ne in Hm by done.
              right. split; [|done]. constructor; [|done].
              simpl. rewrite Hj. by intros [= ->].
        -- right. split; [|done]. constructor; [|done]. simpl. by rewrite Hj.
    + intros [(id & d' & (pre & post & Hes & Hi & Hpost) & ->)|[Hall Hm]].
      * destruct pre as [|x pre]; simplify_eq/=.
        -- right. split; [done|]. rewrite Hi. by rewrite lookup_insert_eq.
        -- left. exists id, d'. split; [|done]. by exists pre, post.
      * apply Forall_cons in Hall as [Hd Hall]. simpl in Hd.
        right. split; [done|].
        destruct (raw_index d) as [j|]; [|done].
        rewrite lookup_insert_ne; [done|]. by intros ->.
Qed.

Lemma process_entry_select st entry :
  (process_entry st entry).2 = assign (fun id _ => id) st.2 entry.
Proof.
  destruct st as [h sm], entry as [id d]. unfold process_entry, assign. simpl.
  destruct d as [| |e]; simpl; [done..|]. by destruct (raw_highlightIndex e).
Qed.

Lemma fold_process_select es st :
  (fold_left process_entry es st).2 = fold_left (assign (fun id _ => id)) es st.2.
Proof.
  revert st. induction es as [|e es IH]; intros st; simpl; [done|].
  by rewrite IH, process_entry_select.
Qed.

Lemma build_selector tbl i id :
  (build tbl).2 !! i = Some id
  <-> exists d, last_with_index i id d (Object_entries tbl).
Proof.
  unfold build. rewrite fold_process_select. simpl.
  rewrite fold_assign_lookup. split.
  - intros [(id' & d & Hlast & ->)|[_ Hm]]; [eauto|by rewrite lookup_empty in Hm].
  - intros [d Hlast]. left. eauto.
Qed.

Lemma populate_assign es (m : gmap Z ContextEntry) :
  Forall (fun kv => live kv.2 = true) es ->
  BrowserContext.populate es m = fold_left (assign (fun _ d => context_entry d)) es m.
Proof.
  revert m. induction es as [|[k d] es IH]; intros m Hlive; simpl; [done|].
  apply Forall_cons in Hlive as [Hd Hlive]. simpl in Hd.
  destruct d as [| |e]; [done| |]; unfold assign at 2; simpl.
  - by apply IH.
  - destruct (raw_highlightIndex e); by apply IH.
Qed.

Lemma last_with_index_elem i id d es : last_with_index i id d es -> (id, d) ∈ es.
Proof. intros (pre & post & -> & _). apply elem_of_app. right. by left. Qed.

Lemma raw_index_elem d i : raw_index d = Some i -> exists e, d = RawElem e.
Proof. destruct d; simpl; intros [=]. eauto. Qed.

Lemma static_lookup_element (h : Store) id e0 :
  static_node <$> (h !! id) = Some (ElementNode e0) ->
  exists el, h !! id = Some (ElementNode el)
    /\ tagName el = tagName e0 /\ xpath el = xpath e0
    /\ attributes el = attributes e0 /\ isVisible el = isVisible e0
    /\ isInteractive el = isInteractive e0 /\ isTopElement el = isTopElement e0
    /\ isInViewport el = isInViewport e0 /\ highlightIndex el = highlightIndex e0
    /\ shadowRoot el = shadowRoot e0 /\ viewportInfo el = viewportInfo e0.
Proof.
  destruct (h !! id) as [[el|t]|]; simpl; intros [=]. subst.
  exists el. by repeat split.
Qed.

Lemma children_first_from_split es :
  forall seen pre id d post,
  children_first_from seen es = true ->
  es = pre ++ (id, d) :: post ->
  forall c, c ∈ declared_children d -> c ∈ seen ++ live_keys pre.
Proof.
  induction es as [|[k d0] es IH]; intros seen pre id d post Hcf Hes c Hc.
  - by destruct pre.
  - simpl in Hcf. apply andb_true_iff in Hcf as [Hhead Hcf].
    destruct pre as [|x pre]; simplify_eq/=.
    + rewrite forallb_forall in Hhead.
      apply list_elem_of_In, Hhead, bool_decide_eq_true in Hc.
      unfold live_keys. simpl. by rewrite app_nil_r.
    + specialize (IH _ pre id d post Hcf eq_refl c Hc).
      assert (Hlk : live_keys ((k, d0) :: pre)
                    = (if live d0 then [k] else []) ++ live_keys pre).
      { unfold live_keys. simpl. by destruct (live d0). }
      rewrite Hlk. destruct (live d0); simpl in *; [|done].
      by rewrite <- app_assoc in IH.
Qed.

End SelectorMap.

(** *** From the result of [constructDOMTree] to the loop state *)

Lemma construct_ok evalPage root sm (h : Store) :
  DOMService.constructDOMTree evalPage = Ok (root, sm, h) ->
  root = EvalPage.rootId evalPage
  /\ h = (DOMService.build (EvalPage.map evalPage)).1
  /\ sm = (DOMService.build (EvalPage.map evalPage)).2
  /\ is_element h root = true.
Proof.
  unfold DOMService.constructDOMTree.
  destruct (DOMService.build (EvalPage.map evalPage)) as [nodeMap selectorMap].
  destruct (nodeMap !! EvalPage.rootId evalPage) as [[el|t]|] eqn:Hroot; try done.
  intros [= <- <- <-]. unfold is_element. by rewrite Hroot.
Qed.

Lemma exists_last_with_index i es :
  Exists (fun kv => raw_index kv.2 = Some i) es ->
  exists id d, last_with_index i id d es.
Proof.
  induction es as [|[k d] es IH]; intros Hex; [by apply Exists_nil in Hex|].
  destruct (decide (Exists (fun kv : string * RawNode => raw_index kv.2 = Some i) es))
    as [Hes|Hes].
  - destruct (IH Hes) as (id & d' & pre & post & -> & Hi & Hpost).
    exists id, d', ((k, d) :: pre), post. done.
  - apply Exists_cons in Hex as [Hd|Hex]; [|done]. simpl in Hd.
    exists k, d, [], es. split; [done|]. split; [done|].
    apply Forall_forall. intros x Hx Hxi. apply Hes.
    apply Exists_exists. eauto.
Qed.

Lemma filter_all {A} (f : A -> bool) (l : list A) :
  (forall x, x ∈ l -> f x = true) -> List.filter f l = l.
Proof.
  induction l as [|x l IH]; intros Hf; simpl; [done|].
  rewrite Hf by (by left). f_equal. apply IH. intros y Hy. apply Hf. by right.
Qed.

(** *** A node below which the recursion never ends *)

Section Divergence.
Import ClickableElementProcessor.

Lemma collect_loop_None (rec : NodeRef -> option (list NodeRef)) (h : Store) c cs :
  c ∈ cs -> is_element h c = true -> rec c = None ->
  forall acc, collect_loop rec h cs acc = None.
Proof.
  intros Hc Hel Hrec. induction cs as [|c' cs IH]; intros acc.
  - by apply elem_of_nil in Hc.
  - simpl. unfold is_element in Hel.
    apply elem_of_cons in Hc as [<-|Hc].
    + destruct (h !! c) as [[el|t]|]; try done. by rewrite Hrec.
    + destruct (h !! c') as [[el|t]|]; [|by apply IH..].
      destruct (rec c'); simpl; [by apply IH|done].
Qed.

Lemma getClickableElements_self_child (h : Store) r :
  r ∈ children_of h r -> is_element h r = true ->
  forall fuel, getClickableElements fuel h r = None.
Proof.
  intros Hr Hel. induction fuel as [|f IH]; [done|].
  simpl. by apply (collect_loop_None _ h r).
Qed.

Lemma getClickableElements_child_None (h : Store) r c :
  c ∈ children_of h r -> is_element h c = true ->
  (forall fuel, getClickableElements fuel h c = None) ->
  forall fuel, getClickableElements fuel h r = None.
Proof.
  intros Hc Hel Hnone. destruct fuel as [|f]; [done|].
  simpl. by apply (collect_loop_None _ h c).
Qed.

Lemma getClickableElements_above_None (h : Store) r n :
  descendant h r n ->
  (forall fuel, getClickableElements fuel h n = None) ->
  forall fuel, getClickableElements fuel h r = None.
Proof.
  induction 1 as [r c Hc Hel|r c n Hc Hel Hn IH]; intros Hnone.
  - by apply (getClickableElements_child_None h r c).
  - apply (getClickableElements_child_None h r c); [done..|]. by apply IH.
Qed.

End Divergence.

Lemma clickable_hashes_helper (h : Store) (rk : NodeRef -> nat) (B : nat)
    (r : NodeRef) (fuel : nat) :
  ranked_down h rk -> ranked_up h rk B -> (rk r < fuel)%nat -> (B < fuel)%nat ->
  exists s, ClickableElementProcessor.getClickableElementsHashes fuel h r = Some s.
Proof.
  intros Hdown Hup Hr HB.
  pose proof (getClickableElements_spec h rk Hdown fuel r Hr) as Hels.
  destruct (mapM_hashDomElement h rk B fuel
              (List.filter (highlighted h) (descendants fuel h r)) Hup HB)
    as (fps & _ & Hmap).
  { apply Forall_forall. intros n Hn. apply list_elem_of_In, filter_In in Hn. tauto. }
  unfold ClickableElementProcessor.getClickableElementsHashes.
  rewrite Hels. simpl. rewrite Hmap. eauto.
Qed.

Lemma kind_is_element_true (h : Store) r :
  node_kind (h !! r) = Some true -> is_element h r = true.
Proof. unfold is_element. by destruct (h !! r) as [[?|?]|]. Qed.

(** ** Lookup and pairwise comparison *)

Section Compare.
Import HistoryTreeProcessor.

Lemma compare_hashes fuel h hist n fp :
  _hashDomElement fuel h n = Some fp ->
  compareHistoryElementAndDomElement fuel h hist n
  = Some (hashes_equal fp (_hashDomHistoryElement hist)).
Proof.
  intros Hfp. unfold compareHistoryElementAndDomElement. rewrite Hfp. simpl.
  unfold hashes_equal. f_equal.
  by rewrite (String.eqb_sym (branchPathHash fp)), (String.eqb_sym (attributesHash fp)),
    (String.eqb_sym (xpathHash fp)).
Qed.


End Compare.

(** ** Collected elements carry a highlight index *)

Section Collected.
Import ClickableElementProcessor.

Lemma collect_loop_highlighted (rec : NodeRef -> option (list NodeRef)) (h : Store) cs :
  (forall c els, rec c = Some els -> Forall (fun n => highlighted h n = true) els) ->
  forall acc els,
  Forall (fun n => highlighted h n = true) acc ->
  collect_loop rec h cs acc = Some els ->
  Forall (fun n => highlighted h n = true) els.
Proof.
  intros Hrec. induction cs as [|c cs IH]; intros acc els Hacc; simpl.
  - by intros [= <-].
  - destruct (h !! c) as [[el|t]|] eqn:Hc; [|by apply IH..].
    destruct (rec c) as [sub|] eqn:Hsub; simpl; [|done].
    apply IH. apply Forall_app. split; [|by eapply Hrec].
    destruct (highlightIndex el) eqn:Hhi; [|done].
    apply Forall_app. split; [done|]. constructor; [|done].
    unfold highlighted, highlightIndex_of. by rewrite Hc, Hhi.
Qed.

Lemma getClickableElements_highlighted fuel (h : Store) r els :
  getClickableElements fuel h r = Some els ->
  Forall (fun n => highlighted h n = true) els.
Proof.
  revert r els. induction fuel as [|f IH]; intros r els; simpl; [done|].
  apply collect_loop_highlighted; [|done]. intros c sub. apply IH.
Qed.

End Collected.


Lemma build_highlighted_has_entry tbl id el i :
  NoDup (keys tbl) ->
  (DOMService.build tbl).1 !! id = Some (ElementNode el) -> highlightIndex el = Some i ->
  exists id2 d2, last_with_index i id2 d2 (Object_entries tbl).
Proof.
  intros Hnd Hel Hhi.
  destruct (decide (id ∈ keys tbl)) as [Hk|Hk]; cycle 1.
  { apply build_kind_absent in Hk. congruence. }
  apply list_elem_of_fmap in Hk as ([id' d] & -> & Hin). simpl in *.
  pose proof (build_static _ _ _ Hnd Hin) as Hst. rewrite Hel in Hst. simpl in Hst.
  destruct d as [| |e]; simpl in Hst; try done. injection Hst as Hfields.
  assert (Hi : raw_index (RawElem e) = Some i).
  { simpl. rewrite <- Hhi. congruence. }
  apply exists_last_with_index.
  apply Exists_exists. exists (id', RawElem e). split; [|done].
  by apply Object_entries_elem.
Qed.
(** ** Text gathering *)

Section TextGathering.
Import ClickableElementText.

Lemma DomIndex_collectText_eq : DomIndex.collectText = collectText.
Proof. reflexivity. Qed.










End TextGathering.
(** ** Ancestors with a highlight index *)

Section Ancestors.
Import DomIndex.

Lemma hasParent_loop_lineage (h : Store) c l :
  lineage h c l ->
  forall fuel, (length l < fuel)%nat ->
    hasParent_loop fuel h (Some c) = Some (existsb (highlighted h) l).
Proof.
  induction 1 as [r Hroot|c p l Hp Hl IH]; intros fuel Hfuel; simpl in Hfuel.
  - destruct fuel as [|[|f]]; [lia|lia|]. cbn [hasParent_loop existsb]. unfold highlighted.
    destruct (highlightIndex_of h r); [done|]. by rewrite Hroot.
  - destruct fuel as [|f]; [lia|]. cbn [hasParent_loop existsb]. unfold highlighted at 1.
    destruct (highlightIndex_of h c); [done|]. rewrite Hp. simpl. apply IH. lia.
Qed.

Lemma hasParent_lineage (h : Store) n l fuel :
  lineage h n l -> (length l <= fuel)%nat ->
  hasParentWithHighlightIndex fuel h n = Some (existsb (highlighted h) (tail l)).
Proof.
  unfold hasParentWithHighlightIndex.
  destruct 1 as [r Hroot|c p l Hp Hl]; simpl; intros Hfuel.
  - rewrite Hroot. destruct fuel; [lia|done].
  - rewrite Hp. apply hasParent_loop_lineage; [done|lia].
Qed.

End Ancestors.

(** ** The file upload search *)

Section FileUpload.
Import DomIndex.





End FileUpload.

(** ** The first element of a list that passes a test *)



(** ** The comparison of the lookup is equality of the three components *)



(** ** The read operations leave the store as it was *)

Section Reads.
Import StoreProgram.

Lemma parents_loop_reads fuel (h : Store) parents c :
  parents_loop fuel parents c h
  = reads (ClickableElementProcessor.parents_loop fuel h parents c) h.
Proof.
  revert parents c. induction fuel as [|f IH]; intros parents c; [done|].
  cbn [parents_loop ClickableElementProcessor.parents_loop].
  unfold bind, load.
  change (node_parent (h !! c)) with (parent_of h c).
  destruct (parent_of h c) as [p|]; [apply IH|done].
Qed.

Lemma tag_names_reads (h : Store) l :
  tag_names l h = Some (List.map (tagName_of h) l, h).
Proof.
  induction l as [|p l IH]; [done|].
  cbn [tag_names]. unfold bind, load. rewrite IH. done.
Qed.

Lemma getParentBranchPath_reads fuel (h : Store) n :
  _getParentBranchPath fuel n h
  = reads (ClickableElementProcessor._getParentBranchPath fuel h n) h.
Proof.
  unfold _getParentBranchPath, ClickableElementProcessor._getParentBranchPath, bind.
  rewrite parents_loop_reads.
  destruct (ClickableElementProcessor.parents_loop fuel h [] n) as [parents|]; [|done].
  simpl. apply tag_names_reads.
Qed.

Lemma hashDomElement_reads fuel (h : Store) n :
  hashDomElement fuel n h = reads (ClickableElementProcessor.hashDomElement fuel h n) h.
Proof.
  unfold hashDomElement, ClickableElementProcessor.hashDomElement, bind, load.
  destruct (h !! n) as [[e|t]|]; [|done..].
  rewrite getParentBranchPath_reads.
  by destruct (ClickableElementProcessor._getParentBranchPath fuel h n).
Qed.

Lemma history_hashDomElement_reads fuel (h : Store) n :
  _hashDomElement fuel n h = reads (HistoryTreeProcessor._hashDomElement fuel h n) h.
Proof.
  unfold _hashDomElement, HistoryTreeProcessor._hashDomElement, bind, load.
  destruct (h !! n) as [[e|t]|]; [|done..].
  rewrite getParentBranchPath_reads.
  change (HistoryTreeProcessor._getParentBranchPath fuel h n)
    with (ClickableElementProcessor._getParentBranchPath fuel h n).
  by destruct (ClickableElementProcessor._getParentBranchPath fuel h n).
Qed.

Lemma convert_reads fuel (h : Store) n :
  convertDomElementToHistoryElement fuel n h
  = reads (HistoryTreeProcessor.convertDomElementToHistoryElement fuel h n) h.
Proof.
  unfold convertDomElementToHistoryElement,
    HistoryTreeProcessor.convertDomElementToHistoryElement, bind, load.
  destruct (h !! n) as [[e|t]|]; [|done..].
  rewrite getParentBranchPath_reads.
  change (HistoryTreeProcessor._getParentBranchPath fuel h n)
    with (ClickableElementProcessor._getParentBranchPath fuel h n).
  by destruct (ClickableElementProcessor._getParentBranchPath fuel h n).
Qed.

Lemma collect_loop_reads (rec : NodeRef -> prog (list NodeRef))
    (rec' : NodeRef -> option (list NodeRef)) (h : Store) cs :
  (forall c, rec c h = reads (rec' c) h) ->
  forall acc,
    collect_loop rec cs acc h
    = reads (ClickableElementProcessor.collect_loop rec' h cs acc) h.
Proof.
  intros Hrec. induction cs as [|c cs IH]; intros acc; [done|].
  cbn [collect_loop ClickableElementProcessor.collect_loop]. unfold bind, load.
  destruct (h !! c) as [[e|t]|]; [|apply IH..].
  rewrite Hrec. destruct (rec' c) as [sub|]; [|done]. simpl. apply IH.
Qed.

Lemma getClickableElements_reads fuel (h : Store) n :
  getClickableElements fuel n h
  = reads (ClickableElementProcessor.getClickableElements fuel h n) h.
Proof.
  revert n. induction fuel as [|f IH]; intros n; [done|].
  cbn [getClickableElements ClickableElementProcessor.getClickableElements].
  unfold bind, load.
  change (node_children (h !! n)) with (children_of h n).
  by apply collect_loop_reads.
Qed.

Lemma search_children_reads (rec : NodeRef -> prog (option NodeRef))
    (rec' : NodeRef -> option (option NodeRef)) (h : Store) cs :
  (forall c, rec c h = reads (rec' c) h) ->
  search_children rec cs h = reads (HistoryTreeProcessor.search_children rec' h cs) h.
Proof.
  intros Hrec. induction cs as [|c cs IH]; [done|].
  cbn [search_children HistoryTreeProcessor.search_children]. unfold bind, load.
  destruct (h !! c) as [[e|t]|]; [|apply IH..].
  rewrite Hrec. destruct (rec' c) as [[found|]|]; [done|apply IH|done].
Qed.

Lemma processNode_reads fuel wfuel (h : Store) target n :
  processNode fuel wfuel target n h
  = reads (HistoryTreeProcessor.processNode fuel wfuel h target n) h.
Proof.
  revert n. induction fuel as [|f IH]; intros n; [done|].
  cbn [processNode HistoryTreeProcessor.processNode]. unfold bind, load.
  change (node_children (h !! n)) with (children_of h n).
  change (node_highlightIndex (h !! n)) with (highlightIndex_of h n).
  pose proof (search_children_reads (processNode f wfuel target)
                (HistoryTreeProcessor.processNode f wfuel h target) h
                (children_of h n) IH) as Hdesc.
  destruct (highlightIndex_of h n) as [i|]; [|exact Hdesc].
  rewrite history_hashDomElement_reads.
  destruct (HistoryTreeProcessor._hashDomElement wfuel h n) as [fp|]; [|done].
  simpl. destruct (HistoryTreeProcessor.hashes_equal fp target); [done|exact Hdesc].
Qed.

Lemma findHistoryElementInTree_reads fuel (h : Store) hist n :
  findHistoryElementInTree fuel hist n h
  = reads (HistoryTreeProcessor.findHistoryElementInTree fuel h hist n) h.
Proof. apply processNode_reads. Qed.

(** The wiring step, in contrast, writes. *)
Lemma connect_writes id c (h : Store) :
  connect id c h = Some (tt, DOMService.connect id h c).
Proof.
  unfold connect, DOMService.connect, DOMService.in_nodeMap, bind, load, update, ret.
  by destruct (h !! c); [|case_bool_decide].
Qed.

End Reads.

(** ** Which references become parent links *)

Section Links.
Import DOMService.

Lemma realized_from_intro pre :
  forall seen p d post c,
  c ∈ default [] (raw_children d) ->
  c = p \/ c ∈ seen ++ live_keys pre ->
  (p, c) ∈ realized_from seen (pre ++ (p, RawElem d) :: post).
Proof.
  induction pre as [|[q d0] pre IH]; intros seen p d post c Hc Hseen; simpl.
  - apply elem_of_app. left. apply list_elem_of_fmap. exists c. split; [done|].
    apply list_elem_of_In, filter_In. split; [by apply list_elem_of_In|].
    unfold live_keys in Hseen. simpl in Hseen. rewrite app_nil_r in Hseen.
    destruct Hseen as [->|Hseen].
    + by rewrite String.eqb_refl.
    + rewrite (bool_decide_eq_true_2 _ Hseen). by rewrite orb_true_r.
  - apply elem_of_app. right. apply IH; [done|].
    destruct Hseen as [->|Hseen]; [by left|right].
    assert (Hlk : live_keys ((q, d0) :: pre)
                  = (if live d0 then [q] else []) ++ live_keys pre).
    { unfold live_keys. simpl. by destruct (live d0). }
    rewrite Hlk in Hseen. destruct (live d0); simpl in *; [|done].
    by rewrite <- app_assoc.
Qed.

Lemma build_element_record tbl p e :
  NoDup (keys tbl) -> (build tbl).1 !! p = Some (ElementNode e) ->
  exists d, (p, RawElem d) ∈ tbl.
Proof.
  intros HK Hp.
  assert (Hkey : p ∈ keys tbl) by (apply build_node_key; eauto).
  apply list_elem_of_fmap in Hkey as ([p' d0] & -> & Hin). simpl in *.
  pose proof (build_kind_present tbl p' d0) as Hkind.
  destruct d0 as [|txt vis|d].
  - pose proof (build_static tbl p' RawNull HK Hin) as Hst.
    rewrite Hp in Hst. done.
  - specialize (Hkind false HK Hin eq_refl). rewrite Hp in Hkind. done.
  - eauto.
Qed.

Lemma build_child_link tbl p c :
  NoDup (keys tbl) -> plain_keys tbl ->
  c ∈ children_of (build tbl).1 p -> is_Some ((build tbl).1 !! c) ->
  (p, c) ∈ realized_links tbl.
Proof.
  intros HK Hplain Hc Hnode.
  assert (Hp : exists e, (build tbl).1 !! p = Some (ElementNode e)).
  { unfold children_of in Hc.
    destruct ((build tbl).1 !! p) as [[e|t]|]; [eauto|by apply elem_of_nil in Hc..]. }
  destruct Hp as [e Hp].
  destruct (build_element_record tbl p e HK Hp) as [d Hin].
  apply Object_entries_elem, list_elem_of_split in Hin as (pre & post & Hes).
  rewrite (build_children tbl pre p d post HK Hes) in Hc.
  apply list_elem_of_In, filter_In in Hc as [Hdecl Hwired].
  unfold realized_links. rewrite Hes.
  apply realized_from_intro; [by apply list_elem_of_In|].
  apply orb_true_iff in Hwired as [Hwired|Hname].
  - apply orb_true_iff in Hwired as [Heq|Hlive].
    + left. by apply String.eqb_eq.
    + right. by apply bool_decide_eq_true in Hlive.
  - exfalso. apply bool_decide_eq_true in Hname.
    unfold plain_keys in Hplain. rewrite Forall_forall in Hplain.
    apply (Hplain c); [|done]. by apply build_node_key.
Qed.

(** With a single wiring record per node, the [parent] of a child is the
    element that lists it. *)
Lemma build_child_parent tbl p c :
  NoDup (keys tbl) -> plain_keys tbl -> single_parent tbl ->
  c ∈ children_of (build tbl).1 p -> is_Some ((build tbl).1 !! c) ->
  parent_of (build tbl).1 c = Some p.
Proof.
  intros HK Hplain Hsingle Hc Hnode.
  destruct (build_child_has_parent tbl HK Hplain p c Hc Hnode) as [p' Hp'].
  rewrite Hp'. f_equal.
  apply (Hsingle p' p c).
  - apply build_child_link; [done..| |done]. by apply build_parent_listed.
  - by apply build_child_link.
Qed.

Lemma build_root_parent tbl r :
  NoDup (keys tbl) -> plain_keys tbl -> never_wired tbl r ->
  parent_of (build tbl).1 r = None.
Proof.
  intros HK Hplain Hnever.
  destruct (parent_of (build tbl).1 r) as [p|] eqn:Hp; [|done].
  exfalso. apply (Hnever p). apply build_child_link; [done..| |].
  - by apply build_parent_listed.
  - unfold parent_of in Hp. destruct ((build tbl).1 !! r); [eauto|done].
Qed.

End Links.

(** * The claims *)

(** C3. For every element node [e] whose [parent] chain ends, converting [e]
    to a history record, writing the record out and parsing it again gives a
    record that [compareHistoryElementAndDomElement] accepts for [e]; the
    stored branch path, attributes and xpath hash to the three components
    computed from the live element. *)
Theorem history_round_trip_matches (h : Store) (e : NodeRef) (el : DOMElementNode)
    (l : list NodeRef) (fuel : nat) :
  h !! e = Some (ElementNode el) -> lineage h e l -> (length l <= fuel)%nat ->
  exists d d',
    HistoryTreeProcessor.convertDomElementToHistoryElement fuel h e = Some d
    /\ deserialize (serialize d) = Some d'
    /\ HistoryTreeProcessor.compareHistoryElementAndDomElement fuel h d' e = Some true
    /\ HistoryTreeProcessor._hashDomElement fuel h e
       = Some (HistoryTreeProcessor._hashDomHistoryElement d')
    /\ HistoryTreeProcessor._hashDomHistoryElement d
       = HistoryTreeProcessor._hashDomHistoryElement d'.
Proof.
  intros He Hl Hfuel.
  eexists _, _. split; [by eapply convert_lineage|].
  split; [apply deserialize_serialize|].
  rewrite hashDomHistoryElement_reparsed.
  unfold HistoryTreeProcessor.compareHistoryElementAndDomElement.
  rewrite hashDomHistoryElement_reparsed.
  rewrite (hashDomElement_lineage h e el l fuel He Hl Hfuel).
  unfold HistoryTreeProcessor._hashDomHistoryElement. simpl.
  by rewrite !String.eqb_refl.
Qed.

Lemma history_round_trip_matches_witness :
  exists d d',
    HistoryTreeProcessor.convertDomElementToHistoryElement 2 page_store "0" = Some d
    /\ deserialize (serialize d) = Some d'
    /\ HistoryTreeProcessor.compareHistoryElementAndDomElement 2 page_store d' "0" = Some true
    /\ HistoryTreeProcessor._hashDomElement 2 page_store "0"
       = Some (HistoryTreeProcessor._hashDomHistoryElement d')
    /\ HistoryTreeProcessor._hashDomHistoryElement d
       = HistoryTreeProcessor._hashDomHistoryElement d'.
Proof.
  apply (history_round_trip_matches page_store "0" (button_node (Some "1")) ["0"; "1"] 2).
  - reflexivity.
  - exact page_store_lineage.
  - simpl. lia.
Defined.

(** C6 (as stated, refuted).  In the button-under-body page the tag names
    from the root down to the button are [body; button]; the path the code
    computes for the button is [button] alone, and its branch-path hash is
    not the hash of ["body/button"]. *)
Lemma branch_path_omits_root :
  lineage page_store "0" ["0"; "1"]
  /\ spec_branchPath page_store ["0"; "1"] = ["body"; "button"]
  /\ HistoryTreeProcessor._getParentBranchPath 2 page_store "0" = Some ["button"]
  /\ (exists d,
        HistoryTreeProcessor.convertDomElementToHistoryElement 2 page_store "0" = Some d
        /\ entireParentBranchPath d <> spec_branchPath page_store ["0"; "1"])
  /\ (exists fp,
        HistoryTreeProcessor._hashDomElement 2 page_store "0" = Some fp
        /\ branchPathHash fp
           <> SHA256.hexdigest (String.concat "/" (spec_branchPath page_store ["0"; "1"]))).
Proof.
  split; [exact page_store_lineage|].
  split; [reflexivity|].
  split; [reflexivity|].
  split.
  - eexists. split; [reflexivity|]. vm_compute. discriminate.
  - eexists. split; [reflexivity|]. vm_compute. discriminate.
Qed.

(** C6 (amended).  For every element node [e] whose [parent] chain ends, the
    branch path is the list of tag names of [e] and of its ancestors, in
    top-down order, without the tag of the topmost (parentless) node: the
    root-to-element list with its first entry removed.  [branchPathHash] is
    the hash of these names joined with ["/"], and this list is what a
    history record stores as [entireParentBranchPath]. *)
Theorem branch_path_below_root (h : Store) (e : NodeRef) (el : DOMElementNode)
    (l : list NodeRef) (fuel : nat) :
  h !! e = Some (ElementNode el) -> lineage h e l -> (length l <= fuel)%nat ->
  HistoryTreeProcessor._getParentBranchPath fuel h e = Some (tail (spec_branchPath h l))
  /\ ClickableElementProcessor._getParentBranchPath fuel h e
     = Some (tail (spec_branchPath h l))
  /\ (exists fp,
        HistoryTreeProcessor._hashDomElement fuel h e = Some fp
        /\ branchPathHash fp
           = SHA256.hexdigest (String.concat "/" (tail (spec_branchPath h l))))
  /\ (exists d,
        HistoryTreeProcessor.convertDomElementToHistoryElement fuel h e = Some d
        /\ entireParentBranchPath d = tail (spec_branchPath h l)).
Proof.
  intros He Hl Hfuel.
  split; [by apply getParentBranchPath_lineage|].
  split; [rewrite processors_getParentBranchPath; by apply getParentBranchPath_lineage|].
  split.
  - eexists. split; [by eapply hashDomElement_lineage|]. simpl.
    unfold HistoryTreeProcessor._parentBranchPathHash. by rewrite hashString_sha256.
  - eexists. split; [by eapply convert_lineage|]. done.
Qed.

Lemma branch_path_below_root_witness :
  HistoryTreeProcessor._getParentBranchPath 2 page_store "0"
    = Some (tail (spec_branchPath page_store ["0"; "1"]))
  /\ ClickableElementProcessor._getParentBranchPath 2 page_store "0"
     = Some (tail (spec_branchPath page_store ["0"; "1"]))
  /\ (exists fp,
        HistoryTreeProcessor._hashDomElement 2 page_store "0" = Some fp
        /\ branchPathHash fp
           = SHA256.hexdigest (String.concat "/" (tail (spec_branchPath page_store ["0"; "1"]))))
  /\ (exists d,
        HistoryTreeProcessor.convertDomElementToHistoryElement 2 page_store "0" = Some d
        /\ entireParentBranchPath d = tail (spec_branchPath page_store ["0"; "1"])).
Proof.
  apply (branch_path_below_root page_store "0" (button_node (Some "1")) ["0"; "1"] 2).
  - reflexivity.
  - exact page_store_lineage.
  - simpl. lia.
Defined.

(** C7 (as stated, refuted).  The attribute objects [{a: "", "a=a": ""}] and
    [{"a=a": "", a: ""}] hold the same two distinct pairs and are enumerated
    in different orders, yet the hash input strings are both ["a=a=a="] and
    the two [attributesHash] values are equal. *)
Lemma attributes_hash_order_collision :
  let a1 := [("a", ""); ("a=a", "")] in
  let a2 := [("a=a", ""); ("a", "")] in
  Permutation (Object_entries a1) (Object_entries a2)
  /\ NoDup (keys a1)
  /\ Object_entries a1 <> Object_entries a2
  /\ HistoryTreeProcessor.attributesString a1 = HistoryTreeProcessor.attributesString a2
  /\ HistoryTreeProcessor._attributesHash a1 = HistoryTreeProcessor._attributesHash a2.
Proof.
  cbv zeta. split; [apply perm_swap|].
  split; [apply (bool_decide_unpack _); vm_compute; exact I|].
  split; [vm_compute; discriminate|].
  split; vm_compute; reflexivity.
Qed.

(** C7 (amended).  [attributesHash] is the hash of the concatenation, in the
    attribute object's enumeration order and without separator, of the
    strings [key=value].  For two attribute objects with the same pairs whose
    keys are distinct and contain no [=], a different enumeration order gives
    a different hash input string; the two hashes can then only be equal by a
    collision of the hash primitive on these two inputs. *)
Theorem attributes_hash_order (a1 a2 : JSObject string) :
  Permutation (Object_entries a1) (Object_entries a2) ->
  NoDup (keys a1) ->
  Forall (fun k => eq_free k = true) (keys a1) ->
  Object_entries a1 <> Object_entries a2 ->
  HistoryTreeProcessor._attributesHash a1
    = SHA256.hexdigest
        (String.concat "" (List.map (fun kv => kv.1 +:+ "=" +:+ kv.2) (Object_entries a1)))
  /\ ClickableElementProcessor._attributesHash a1 = HistoryTreeProcessor._attributesHash a1
  /\ HistoryTreeProcessor.attributesString a1 <> HistoryTreeProcessor.attributesString a2
  /\ (HistoryTreeProcessor._attributesHash a1 = HistoryTreeProcessor._attributesHash a2 ->
      exists s1 s2, s1 <> s2 /\ SHA256.hexdigest s1 = SHA256.hexdigest s2).
Proof.
  intros Hperm Hnd Hfree Hneq.
  assert (Hstr : HistoryTreeProcessor.attributesString a1
                 <> HistoryTreeProcessor.attributesString a2).
  { intros Heq. apply Hneq.
    apply pairs_string_inj; [| |done|exact Heq].
    - by rewrite Object_entries_keys_perm.
    - by apply Object_entries_NoDup. }
  split; [unfold HistoryTreeProcessor._attributesHash; by rewrite hashString_sha256|].
  split; [reflexivity|].
  split; [done|].
  unfold HistoryTreeProcessor._attributesHash. rewrite !hashString_sha256.
  intros Heq. by eexists _, _.
Qed.

Lemma attributes_hash_order_witness :
  let a1 := [("id", "go"); ("class", "x")] in
  let a2 := [("class", "x"); ("id", "go")] in
  HistoryTreeProcessor._attributesHash a1
    = SHA256.hexdigest
        (String.concat "" (List.map (fun kv => kv.1 +:+ "=" +:+ kv.2) (Object_entries a1)))
  /\ ClickableElementProcessor._attributesHash a1 = HistoryTreeProcessor._attributesHash a1
  /\ HistoryTreeProcessor.attributesString a1 <> HistoryTreeProcessor.attributesString a2
  /\ (HistoryTreeProcessor._attributesHash a1 = HistoryTreeProcessor._attributesHash a2 ->
      exists s1 s2, s1 <> s2 /\ SHA256.hexdigest s1 = SHA256.hexdigest s2).
Proof.
  cbv zeta.
  apply (attributes_hash_order [("id", "go"); ("class", "x")] [("class", "x"); ("id", "go")]).
  - apply perm_swap.
  - apply (bool_decide_unpack _); vm_compute; exact I.
  - by repeat constructor.
  - vm_compute. discriminate.
Defined.



Example button_found_in_page :
  HistoryTreeProcessor.convertDomElementToHistoryElement 3 page_store "0"
    = Some button_history
  /\ HistoryTreeProcessor.findHistoryElementInTree 3 page_store button_history "1"
     = Some (Some "0").
Proof. split; [reflexivity|vm_compute; reflexivity]. Qed.






(** The highlighted root of the example page is found by the lookup and
    left out by the collector. *)
Example highlighted_root_found_not_collected :
  exists d,
    HistoryTreeProcessor.convertDomElementToHistoryElement 2 page_store_root_highlighted "1"
      = Some d
    /\ HistoryTreeProcessor.findHistoryElementInTree 2 page_store_root_highlighted d "1"
       = Some (Some "1")
    /\ ClickableElementProcessor.getClickableElements 2 page_store_root_highlighted "1"
       = Some ["0"].
Proof.
  eexists. split; [reflexivity|]. split; [vm_compute; reflexivity|reflexivity].
Qed.



(** A text record as root makes construction throw. *)
Example construct_text_root_throws :
  DOMService.constructDOMTree text_root_page
  = Throw "Failed to parse HTML to dictionary".
Proof. vm_compute. reflexivity. Qed.

(** C5 (the code departs from the claim).  A record that lists the child id
    [toString], an id the raw table does not hold, keeps that reference:
    [childId in nodeMap] finds the inherited property, so construction
    succeeds with the built-in function pushed into the root's children, a
    child that is no node of the tree.  The reference is not dropped: the
    result differs from the one for the table without that id, where the
    root has no children. *)
Theorem inherited_child_name_is_wired :
  ("toString" ∉ keys (EvalPage.map inherited_child_page))
  /\ exists sm h,
       DOMService.constructDOMTree inherited_child_page = Ok ("0", sm, h)
       /\ children_of h "0" = ["toString"]
       /\ h !! "toString" = None
       /\ exists h',
            DOMService.constructDOMTree
              {| EvalPage.map :=
                   drop_child_id_everywhere "toString" (EvalPage.map inherited_child_page);
                 EvalPage.rootId := "0" |}
            = Ok ("0", sm, h')
            /\ children_of h' "0" = []
            /\ h' <> h.
Proof.
  split.
  { apply (bool_decide_unpack _). vm_compute. exact I. }
  eexists _, _. split; [vm_compute; reflexivity|].
  split; [vm_compute; reflexivity|]. split; [vm_compute; reflexivity|].
  eexists. split; [vm_compute; reflexivity|]. split; [vm_compute; reflexivity|].
  intros Heq. apply (f_equal (fun m : Store => children_of m "0")) in Heq.
  vm_compute in Heq. discriminate Heq.
Qed.

(** A child id that is neither a key nor an inherited name is dropped: with
    the dangling id ["9"] the example page gives the same tree as without
    it. *)
Example dangling_page_tree :
  DOMService.constructDOMTree dangling_page = Ok ("1", {[ 0%Z := "0" ]}, page_store)
  /\ children_of page_store "1" = ["0"].
Proof. split; vm_compute; reflexivity. Qed.

(** C9 (as stated, refuted).  A child id listed by two records is pushed
    into both child lists while its [parent] names the record wired last;
    a record listing its own id becomes its own child and parent; and a
    root record listed by a later record is returned as root although it has
    a parent. *)
Lemma shared_or_self_listed_child_breaks_tree :
  match DOMService.constructDOMTree shared_child_page with
  | Ok (r, sm, h) =>
      children_of h "1" = ["0"] /\ children_of h "2" = ["0"; "1"]
      /\ parent_of h "0" = Some "2" /\ parent_of h "0" <> Some "1"
  | Throw _ => False
  end
  /\ match DOMService.constructDOMTree self_listing_page with
     | Ok (r, sm, h) =>
         r = "0" /\ children_of h "0" = ["0"] /\ parent_of h "0" = Some "0"
     | Throw _ => False
     end
  /\ match DOMService.constructDOMTree listed_root_page with
     | Ok (r, sm, h) =>
         r = "0" /\ parent_of h "0" = Some "1" /\ children_of h "1" = ["0"]
     | Throw _ => False
     end.
Proof.
  split; [|split]; vm_compute; repeat split; discriminate.
Qed.

(** C9 (amended).  For every raw table in which no record lists its own id,
    no node is wired as a child by two different records and the root is
    wired as a child by no record, the returned tree has as root an element
    node that has no parent and is in no children list, every node in an
    element's children has its [parent] set to exactly that element, every
    [parent] link has its entry in the parent's children, and the structure
    has no cycle: a rank decreases along [children] and increases along
    [parent].  Collection, fingerprinting, history capture and lookup, run
    as programs over the store, return their results and leave the store as
    it was. *)
Theorem constructed_tree_consistent (evalPage : EvalPage.t) (root : NodeRef)
    (sm : SelectorMap) (h : Store) :
  NoDup (keys (EvalPage.map evalPage)) ->
  plain_table (EvalPage.map evalPage) ->
  no_self_listing (EvalPage.map evalPage) ->
  single_parent (EvalPage.map evalPage) ->
  never_wired (EvalPage.map evalPage) (EvalPage.rootId evalPage) ->
  DOMService.constructDOMTree evalPage = Ok (root, sm, h) ->
  (root = EvalPage.rootId evalPage
   /\ is_element h root = true
   /\ parent_of h root = None
   /\ forall p, root ∉ children_of h p)
  /\ (forall p c, c ∈ children_of h p -> is_Some (h !! c) -> parent_of h c = Some p)
  /\ (forall c p, parent_of h c = Some p -> c ∈ children_of h p)
  /\ (exists rk B, ranked_down h rk /\ ranked_up h rk B)
  /\ (forall fuel n,
        StoreProgram.getClickableElements fuel n h
        = StoreProgram.reads (ClickableElementProcessor.getClickableElements fuel h n) h)
  /\ (forall fuel n,
        StoreProgram.hashDomElement fuel n h
        = StoreProgram.reads (ClickableElementProcessor.hashDomElement fuel h n) h)
  /\ (forall fuel n,
        StoreProgram._hashDomElement fuel n h
        = StoreProgram.reads (HistoryTreeProcessor._hashDomElement fuel h n) h)
  /\ (forall fuel n,
        StoreProgram.convertDomElementToHistoryElement fuel n h
        = StoreProgram.reads
            (HistoryTreeProcessor.convertDomElementToHistoryElement fuel h n) h)
  /\ (forall fuel hist n,
        StoreProgram.findHistoryElementInTree fuel hist n h
        = StoreProgram.reads
            (HistoryTreeProcessor.findHistoryElementInTree fuel h hist n) h).
Proof.
  intros HK [Hplain _] Hself Hsingle Hroot (-> & -> & -> & Hel)%construct_ok.
  assert (Hparent : parent_of (DOMService.build (EvalPage.map evalPage)).1
                      (EvalPage.rootId evalPage) = None)
    by (by apply build_root_parent).
  assert (Hlink : forall p c,
            c ∈ children_of (DOMService.build (EvalPage.map evalPage)).1 p ->
            is_Some ((DOMService.build (EvalPage.map evalPage)).1 !! c) ->
            parent_of (DOMService.build (EvalPage.map evalPage)).1 c = Some p)
    by (intros p c; by apply build_child_parent).
  split.
  { split; [done|]. split; [done|]. split; [done|].
    intros p Hin. apply Hlink in Hin; [congruence|].
    apply is_element_lookup in Hel as [el ->]. eauto. }
  split; [done|].
  split; [by apply build_parent_listed|].
  split.
  { destruct (build_ranked _ HK Hplain Hself) as [Hdown Hup]. eauto. }
  split; [intros; apply getClickableElements_reads|].
  split; [intros; apply hashDomElement_reads|].
  split; [intros; apply history_hashDomElement_reads|].
  split; [intros; apply convert_reads|].
  intros. apply findHistoryElementInTree_reads.
Qed.

Lemma constructed_tree_consistent_witness :
  ("1" = EvalPage.rootId children_first_page
   /\ is_element page_store "1" = true
   /\ parent_of page_store "1" = None
   /\ forall p, "1" ∉ children_of page_store p)
  /\ (forall p c, c ∈ children_of page_store p -> is_Some (page_store !! c) ->
        parent_of page_store c = Some p)
  /\ (forall c p, parent_of page_store c = Some p -> c ∈ children_of page_store p)
  /\ (exists rk B, ranked_down page_store rk /\ ranked_up page_store rk B)
  /\ (forall fuel n,
        StoreProgram.getClickableElements fuel n page_store
        = StoreProgram.reads
            (ClickableElementProcessor.getClickableElements fuel page_store n) page_store)
  /\ (forall fuel n,
        StoreProgram.hashDomElement fuel n page_store
        = StoreProgram.reads
            (ClickableElementProcessor.hashDomElement fuel page_store n) page_store)
  /\ (forall fuel n,
        StoreProgram._hashDomElement fuel n page_store
        = StoreProgram.reads
            (HistoryTreeProcessor._hashDomElement fuel page_store n) page_store)
  /\ (forall fuel n,
        StoreProgram.convertDomElementToHistoryElement fuel n page_store
        = StoreProgram.reads
            (HistoryTreeProcessor.convertDomElementToHistoryElement fuel page_store n)
            page_store)
  /\ (forall fuel hist n,
        StoreProgram.findHistoryElementInTree fuel hist n page_store
        = StoreProgram.reads
            (HistoryTreeProcessor.findHistoryElementInTree fuel page_store hist n)
            page_store).
Proof.
  apply (constructed_tree_consistent children_first_page "1" {[ 0%Z := "0" ]} page_store).
  - apply (bool_decide_unpack _). vm_compute. exact I.
  - split.
    + apply (bool_decide_unpack _). vm_compute. exact I.
    + apply (bool_decide_unpack _). vm_compute. exact I.
  - apply (bool_decide_unpack _). vm_compute. exact I.
  - intros p p' c Hp Hp'.
    apply list_elem_of_In in Hp, Hp'. vm_compute in Hp, Hp'.
    destruct Hp as [Hp|[]], Hp' as [Hp'|[]]. congruence.
  - intros p Hp. apply list_elem_of_In in Hp. vm_compute in Hp.
    destruct Hp as [Hp|[]]. discriminate Hp.
  - vm_compute. reflexivity.
Defined.

(** C1 (as stated, refuted).  For the scenario's raw table the root record
    ["0"] is wired before the button record ["1"] exists in the node map, so
    the reference is skipped: the root has no realized children, the
    collector returns nothing and the lookup of the button's history record
    finds nothing.  Only the selector map is as claimed. *)
Lemma scenario_root_has_no_children :
  DOMService.constructDOMTree scenario_page
    = Ok ("0", {[ 0%Z := "1" ]}, scenario_store)
  /\ Object_entries (EvalPage.map scenario_page) = EvalPage.map scenario_page
  /\ children_of scenario_store "0" = []
  /\ ClickableElementProcessor.getClickableElements 2 scenario_store "0" = Some []
  /\ exists d,
       HistoryTreeProcessor.convertDomElementToHistoryElement 2 scenario_store "1" = Some d
       /\ HistoryTreeProcessor.findHistoryElementInTree 2 scenario_store d "0" = Some None.
Proof.
  split; [vm_compute; reflexivity|].
  split; [reflexivity|]. split; [reflexivity|]. split; [reflexivity|].
  eexists. split; [reflexivity|]. vm_compute. reflexivity.
Qed.

(** C1 (amended).  For the scenario's raw table, construction returns the
    root [body] under id ["0"] with no realized children, the selector map is
    [{0: button}], collecting from the root returns the empty list and
    looking up the button's history record returns not-found.  With the same
    two records numbered children first (button ["0"], body ["1"] listing
    ["0"], root id ["1"]) construction returns the root [body] whose realized
    children are exactly the button, the selector map is [{0: button}],
    collecting from the root returns exactly the button, and converting the
    button to a history record and looking it up in that tree returns the
    button. *)
Theorem scenario_by_id_order :
  (DOMService.constructDOMTree scenario_page
     = Ok ("0", {[ 0%Z := "1" ]}, scenario_store)
   /\ tagName_of scenario_store "0" = "body"
   /\ children_of scenario_store "0" = []
   /\ scenario_store !! "1" = Some (ElementNode (button_node None))
   /\ ClickableElementProcessor.getClickableElements 2 scenario_store "0" = Some []
   /\ exists d,
        HistoryTreeProcessor.convertDomElementToHistoryElement 2 scenario_store "1"
          = Some d
        /\ HistoryTreeProcessor.findHistoryElementInTree 2 scenario_store d "0"
           = Some None)
  /\ (DOMService.constructDOMTree children_first_page
        = Ok ("1", {[ 0%Z := "0" ]}, page_store)
      /\ tagName_of page_store "1" = "body"
      /\ children_of page_store "1" = ["0"]
      /\ page_store !! "0" = Some (ElementNode (button_node (Some "1")))
      /\ ClickableElementProcessor.getClickableElements 2 page_store "1" = Some ["0"]
      /\ HistoryTreeProcessor.convertDomElementToHistoryElement 2 page_store "0"
         = Some button_history
      /\ HistoryTreeProcessor.findHistoryElementInTree 2 page_store button_history "1"
         = Some (Some "0")).
Proof.
  split.
  - split; [vm_compute; reflexivity|].
    split; [reflexivity|]. split; [reflexivity|]. split; [reflexivity|].
    split; [reflexivity|].
    eexists. split; [reflexivity|]. vm_compute. reflexivity.
  - split; [vm_compute; reflexivity|].
    split; [reflexivity|]. split; [reflexivity|]. split; [reflexivity|].
    split; [reflexivity|]. split; [reflexivity|]. vm_compute. reflexivity.
Qed.

(** * Further properties of the code *)

(** ** Tree construction *)

(** X1.  For a raw table with distinct ids, every node of the returned tree
    carries the fields of its raw record: an id that is absent, or whose
    record is [null], has no node; a text record gives a text node with its
    text and visibility; an element record gives an element node with its tag
    name, xpath, attributes, highlight index and flags, missing flags read as
    [false] and missing attributes as the empty object.  Wiring changes
    [parent] and [children] only. *)
Theorem constructed_nodes_keep_record_fields (evalPage : EvalPage.t) (root : NodeRef)
    (sm : SelectorMap) (h : Store) :
  NoDup (keys (EvalPage.map evalPage)) ->
  DOMService.constructDOMTree evalPage = Ok (root, sm, h) ->
  (forall id, id ∉ keys (EvalPage.map evalPage) -> h !! id = None)
  /\ (forall id, (id, RawNull) ∈ EvalPage.map evalPage -> h !! id = None)
  /\ (forall id txt vis,
        (id, RawText txt vis) ∈ EvalPage.map evalPage ->
        exists t, h !! id = Some (TextNode t) /\ text t = txt /\ t_isVisible t = vis)
  /\ (forall id d,
        (id, RawElem d) ∈ EvalPage.map evalPage ->
        exists el,
          h !! id = Some (ElementNode el)
          /\ tagName el = raw_tagName d
          /\ xpath el = raw_xpath d
          /\ attributes el = default [] (raw_attributes d)
          /\ highlightIndex el = raw_highlightIndex d
          /\ isVisible el = default false (raw_isVisible d)
          /\ isInteractive el = Some (default false (raw_isInteractive d))
          /\ isTopElement el = Some (default false (raw_isTopElement d))
          /\ isInViewport el = Some (default false (raw_isInViewport d))
          /\ shadowRoot el = Some (default false (raw_shadowRoot d))
          /\ viewportInfo el = raw_viewport d).
Proof.
  intros Hnd (-> & -> & -> & _)%construct_ok.
  split; [intros id; apply build_kind_absent|].
  split; [|split].
  - intros id Hin. pose proof (build_static _ _ _ Hnd Hin) as Hst. simpl in Hst.
    by destruct (_ !! id).
  - intros id txt vis Hin. pose proof (build_static _ _ _ Hnd Hin) as Hst.
    simpl in Hst. destruct (_ !! id) as [[el|t]|]; simpl in Hst; try done.
    injection Hst as Htxt Hvis. exists t. done.
  - intros id d Hin. pose proof (build_static _ _ _ Hnd Hin) as Hst. simpl in Hst.
    apply static_lookup_element in Hst
      as (el & Hel & ? & ? & ? & ? & ? & ? & ? & ? & ? & Hvp).
    exists el. simpl in *. repeat (split; [done|]).
    rewrite Hvp. by destruct (raw_viewport d) as [[w ht]|].
Qed.

Lemma constructed_nodes_keep_record_fields_witness :
  (forall id, id ∉ keys (EvalPage.map scenario_page) -> scenario_store !! id = None)
  /\ (forall id, (id, RawNull) ∈ EvalPage.map scenario_page -> scenario_store !! id = None)
  /\ (forall id txt vis,
        (id, RawText txt vis) ∈ EvalPage.map scenario_page ->
        exists t, scenario_store !! id = Some (TextNode t)
                  /\ text t = txt /\ t_isVisible t = vis)
  /\ (forall id d,
        (id, RawElem d) ∈ EvalPage.map scenario_page ->
        exists el,
          scenario_store !! id = Some (ElementNode el)
          /\ tagName el = raw_tagName d
          /\ xpath el = raw_xpath d
          /\ attributes el = default [] (raw_attributes d)
          /\ highlightIndex el = raw_highlightIndex d
          /\ isVisible el = default false (raw_isVisible d)
          /\ isInteractive el = Some (default false (raw_isInteractive d))
          /\ isTopElement el = Some (default false (raw_isTopElement d))
          /\ isInViewport el = Some (default false (raw_isInViewport d))
          /\ shadowRoot el = Some (default false (raw_shadowRoot d))
          /\ viewportInfo el = raw_viewport d).
Proof.
  apply (constructed_nodes_keep_record_fields scenario_page "0" {[ 0%Z := "1" ]}
           scenario_store).
  - apply (bool_decide_unpack _). vm_compute. exact I.
  - vm_compute. reflexivity.
Defined.

(** X2.  For a raw table with distinct ids, none of them a name inherited
    from [Object.prototype], and without [__proto__] among the child ids,
    the realized children of an element record are exactly those of its
    declared child ids that are its own id, the id of a non-null record
    enumerated before it, or an inherited name, in declared order; ids of
    later records and all other ids without record are left out.  A child
    kept for its inherited name is a built-in object and no node of the
    tree; every other child is a node. *)
Theorem realized_children_are_earlier_records (evalPage : EvalPage.t) (root : NodeRef)
    (sm : SelectorMap) (h : Store) (pre : list (string * RawNode)) (id : string)
    (d : RawElement) (post : list (string * RawNode)) :
  NoDup (keys (EvalPage.map evalPage)) ->
  plain_table (EvalPage.map evalPage) ->
  DOMService.constructDOMTree evalPage = Ok (root, sm, h) ->
  Object_entries (EvalPage.map evalPage) = pre ++ (id, RawElem d) :: post ->
  children_of h id
  = List.filter
      (fun c => String.eqb c id || bool_decide (c ∈ live_keys pre)
                || bool_decide (c ∈ DOMService.Object_prototype_names))
      (default [] (raw_children d))
  /\ (forall c, c ∈ children_of h id ->
        (c ∈ DOMService.Object_prototype_names -> h !! c = None)
        /\ (c ∉ DOMService.Object_prototype_names -> is_Some (h !! c))).
Proof.
  intros Hnd [Hplain _] (-> & -> & -> & _)%construct_ok Hes.
  split; [by eapply build_children|].
  intros c Hc. split.
  - intros Hname. apply eq_None_not_Some. intros Hnode%build_node_key.
    unfold plain_keys in Hplain. rewrite Forall_forall in Hplain.
    by apply (Hplain c).
  - intros Hname. by destruct (build_children_known _ Hnd id c Hc).
Qed.

Lemma realized_children_are_earlier_records_witness :
  children_of inherited_child_store "0"
  = List.filter
      (fun c => String.eqb c "0" || bool_decide (c ∈ live_keys [])
                || bool_decide (c ∈ DOMService.Object_prototype_names))
      (default [] (raw_children (body_record ["9"; "toString"; "1"])))
  /\ (forall c, c ∈ children_of inherited_child_store "0" ->
        (c ∈ DOMService.Object_prototype_names -> inherited_child_store !! c = None)
        /\ (c ∉ DOMService.Object_prototype_names ->
            is_Some (inherited_child_store !! c))).
Proof.
  apply (realized_children_are_earlier_records
           {| EvalPage.map := [("0", RawElem (body_record ["9"; "toString"; "1"]));
                               ("1", raw_button)];
              EvalPage.rootId := "0" |}
           "0" {[ 0%Z := "1" ]}
           inherited_child_store [] "0" (body_record ["9"; "toString"; "1"])
           [("1", raw_button)]).
  - apply (bool_decide_unpack _). vm_compute. exact I.
  - split; apply (bool_decide_unpack _); vm_compute; exact I.
  - vm_compute. reflexivity.
  - reflexivity.
Defined.

(** X3.  When every record lists only ids of non-null records enumerated
    before it (children numbered before their parents), no reference is
    dropped: the realized children of every element record are its declared
    child ids, in order. *)
Theorem children_first_table_keeps_every_child (evalPage : EvalPage.t) (root : NodeRef)
    (sm : SelectorMap) (h : Store) :
  NoDup (keys (EvalPage.map evalPage)) ->
  children_first (Object_entries (EvalPage.map evalPage)) ->
  DOMService.constructDOMTree evalPage = Ok (root, sm, h) ->
  forall id d,
    (id, RawElem d) ∈ EvalPage.map evalPage ->
    children_of h id = default [] (raw_children d).
Proof.
  intros Hnd Hcf (-> & -> & -> & _)%construct_ok id d Hin.
  apply Object_entries_elem, list_elem_of_split in Hin as (pre & post & Hes).
  rewrite (build_children _ pre id d post Hnd Hes).
  apply filter_all. intros c Hc.
  pose proof (children_first_from_split _ [] pre id (RawElem d) post Hcf Hes c Hc) as Hlive.
  simpl in Hlive. rewrite (bool_decide_eq_true_2 _ Hlive). by rewrite orb_true_r.
Qed.

Lemma children_first_table_keeps_every_child_witness :
  children_of page_store "1" = default [] (raw_children (body_record ["0"])).
Proof.
  apply (children_first_table_keeps_every_child children_first_page "1"
           {[ 0%Z := "0" ]} page_store).
  - apply (bool_decide_unpack _). vm_compute. exact I.
  - reflexivity.
  - vm_compute. reflexivity.
  - right. left.
Defined.

(** X4.  For every raw table with distinct ids, whatever its child lists,
    a node whose [parent] is set is in the [children] of that parent. *)
Theorem parent_link_has_child_entry (evalPage : EvalPage.t) (root : NodeRef)
    (sm : SelectorMap) (h : Store) :
  NoDup (keys (EvalPage.map evalPage)) ->
  DOMService.constructDOMTree evalPage = Ok (root, sm, h) ->
  forall c p, parent_of h c = Some p -> c ∈ children_of h p.
Proof.
  intros Hnd (-> & -> & -> & _)%construct_ok. by apply build_parent_listed.
Qed.

Lemma parent_link_has_child_entry_witness : "0" ∈ children_of page_store "1".
Proof.
  apply (parent_link_has_child_entry children_first_page "1" {[ 0%Z := "0" ]} page_store).
  - apply (bool_decide_unpack _). vm_compute. exact I.
  - vm_compute. reflexivity.
  - reflexivity.
Defined.

(** X5.  The selector map holds, under each highlight index, the node of
    the last record in enumeration order that carries this index: when two
    records carry the same index the later one replaces the earlier one, and
    an index no record carries has no entry. *)
Theorem selector_map_last_record_wins (evalPage : EvalPage.t) (root : NodeRef)
    (sm : SelectorMap) (h : Store) :
  DOMService.constructDOMTree evalPage = Ok (root, sm, h) ->
  forall i id,
    sm !! i = Some id
    <-> exists d, last_with_index i id d (Object_entries (EvalPage.map evalPage)).
Proof.
  intros (-> & -> & -> & _)%construct_ok i id. apply build_selector.
Qed.

Lemma selector_map_last_record_wins_witness :
  ({[ 0%Z := "0" ]} : SelectorMap) !! 0%Z = Some "0"
  <-> exists d,
        last_with_index 0%Z "0" d (Object_entries (EvalPage.map children_first_page)).
Proof.
  apply (selector_map_last_record_wins children_first_page "1" {[ 0%Z := "0" ]}
           page_store).
  vm_compute. reflexivity.
Defined.

(** X6.  For a raw table with distinct ids, every entry of the selector map
    names an element node of the tree whose highlight index is the entry's
    key (text nodes and elements without index are never entered), and every
    element node of the tree that has a highlight index has that index as a
    key of the selector map. *)
Theorem selector_map_entries_are_highlighted_elements (evalPage : EvalPage.t)
    (root : NodeRef) (sm : SelectorMap) (h : Store) :
  NoDup (keys (EvalPage.map evalPage)) ->
  DOMService.constructDOMTree evalPage = Ok (root, sm, h) ->
  (forall i id,
     sm !! i = Some id ->
     exists el, h !! id = Some (ElementNode el) /\ highlightIndex el = Some i)
  /\ (forall id el i,
        h !! id = Some (ElementNode el) -> highlightIndex el = Some i ->
        is_Some (sm !! i)).
Proof.
  intros Hnd (-> & -> & -> & _)%construct_ok. split.
  - intros i id [d Hlast]%build_selector.
    pose proof (last_with_index_elem _ _ _ _ Hlast) as Hin.
    apply (proj1 (Object_entries_elem _ _)) in Hin.
    destruct Hlast as (_ & _ & _ & Hi & _).
    destruct (raw_index_elem d i Hi) as [e ->]. simpl in Hi.
    pose proof (build_static _ _ _ Hnd Hin) as Hst. simpl in Hst.
    apply static_lookup_element in Hst as (el & Hel & _ & _ & _ & _ & _ & _ & _ & Hhi & _).
    exists el. split; [done|]. simpl in Hhi. congruence.
  - intros id el i Hel Hhi.
    destruct (decide (id ∈ keys (EvalPage.map evalPage))) as [Hk|Hk]; cycle 1.
    { apply build_kind_absent in Hk. congruence. }
    apply list_elem_of_fmap in Hk as ([id' d] & -> & Hin). simpl in *.
    pose proof (build_static _ _ _ Hnd Hin) as Hst. rewrite Hel in Hst. simpl in Hst.
    destruct d as [| |e]; simpl in Hst; try done. injection Hst as Hfields.
    assert (Hi : raw_index (RawElem e) = Some i).
    { simpl. rewrite <- Hhi. congruence. }
    destruct (exists_last_with_index i (Object_entries (EvalPage.map evalPage)))
      as (id2 & d2 & Hlast).
    { apply Exists_exists. exists (id', RawElem e). split; [|done].
      by apply Object_entries_elem. }
    exists id2. apply build_selector. eauto.
Qed.

Lemma selector_map_entries_are_highlighted_elements_witness :
  (forall i id,
     ({[ 0%Z := "0" ]} : SelectorMap) !! i = Some id ->
     exists el, page_store !! id = Some (ElementNode el) /\ highlightIndex el = Some i)
  /\ (forall id el i,
        page_store !! id = Some (ElementNode el) -> highlightIndex el = Some i ->
        is_Some (({[ 0%Z := "0" ]} : SelectorMap) !! i)).
Proof.
  apply (selector_map_entries_are_highlighted_elements children_first_page "1"
           {[ 0%Z := "0" ]} page_store).
  - apply (bool_decide_unpack _). vm_compute. exact I.
  - vm_compute. reflexivity.
Defined.

(** X7.  On every tree built from a raw table with distinct ids, in which
    no key and no child id is a name inherited from [Object.prototype] and
    no record lists its own id, every child reference points to a node and
    the recursions end: with fuel above the number of records plus one,
    collecting the clickable elements, computing their hash set, looking up
    a history record, fingerprinting and history capture return for every
    element node of the tree. *)
Theorem traversals_return_on_constructed_trees (evalPage : EvalPage.t) (root : NodeRef)
    (sm : SelectorMap) (h : Store) (fuel : nat) :
  NoDup (keys (EvalPage.map evalPage)) ->
  plain_keys (EvalPage.map evalPage) ->
  plain_children (EvalPage.map evalPage) ->
  no_self_listing (EvalPage.map evalPage) ->
  DOMService.constructDOMTree evalPage = Ok (root, sm, h) ->
  (S (length (EvalPage.map evalPage)) < fuel)%nat ->
  closed h
  /\ forall n,
       is_element h n = true ->
       is_Some (ClickableElementProcessor.getClickableElements fuel h n)
       /\ is_Some (ClickableElementProcessor.getClickableElementsHashes fuel h n)
       /\ (forall hist,
             is_Some (HistoryTreeProcessor.findHistoryElementInTree fuel h hist n))
       /\ is_Some (HistoryTreeProcessor._hashDomElement fuel h n)
       /\ is_Some (HistoryTreeProcessor.convertDomElementToHistoryElement fuel h n).
Proof.
  intros Hnd Hkeys Hchildren Hself (-> & -> & -> & _)%construct_ok Hfuel.
  split; [by apply build_closed|]. intros n Hel.
  destruct (build_ranked _ Hnd Hkeys Hself) as [Hdown Hup].
  set (K := keys (Object_entries (EvalPage.map evalPage))) in *.
  set (h := (DOMService.build (EvalPage.map evalPage)).1) in *.
  assert (Hrk : forall k, (table_rank K k < fuel)%nat).
  { intros k. pose proof (table_rank_le k K) as Hle.
    assert (Hlen : length K = length (EvalPage.map evalPage)).
    { unfold K, keys. rewrite length_map.
      apply Permutation_length, Object_entries_perm. }
    lia. }
  split; [rewrite (getClickableElements_spec h _ Hdown) by apply Hrk; eauto|].
  split.
  { destruct (clickable_hashes_helper h _ _ n fuel Hdown Hup (Hrk n) Hfuel)
      as (s & ->). eauto. }
  split.
  - intros hist. unfold HistoryTreeProcessor.findHistoryElementInTree.
    rewrite (processNode_spec h _ fuel _ Hdown); [eauto| |apply Hrk].
    intros m el Hm.
    destruct (hashDomElement_total h _ _ fuel m el Hup Hfuel Hm) as (l & _ & _ & ->).
    eauto.
  - apply is_element_lookup in Hel as [el Hel].
    destruct (hashDomElement_total h _ _ fuel n el Hup Hfuel Hel) as (l & Hl & Hlen & ->).
    split; [eauto|]. rewrite (convert_lineage h n el l fuel Hel Hl Hlen). eauto.
Qed.

Lemma traversals_return_on_constructed_trees_witness :
  closed page_store
  /\ forall n,
       is_element page_store n = true ->
       is_Some (ClickableElementProcessor.getClickableElements 4 page_store n)
       /\ is_Some (ClickableElementProcessor.getClickableElementsHashes 4 page_store n)
       /\ (forall hist,
             is_Some (HistoryTreeProcessor.findHistoryElementInTree 4 page_store hist n))
       /\ is_Some (HistoryTreeProcessor._hashDomElement 4 page_store n)
       /\ is_Some (HistoryTreeProcessor.convertDomElementToHistoryElement 4 page_store n).
Proof.
  apply (traversals_return_on_constructed_trees children_first_page "1"
           {[ 0%Z := "0" ]} page_store 4).
  - apply (bool_decide_unpack _). vm_compute. exact I.
  - apply (bool_decide_unpack _). vm_compute. exact I.
  - apply (bool_decide_unpack _). vm_compute. exact I.
  - apply (bool_decide_unpack _). vm_compute. exact I.
  - vm_compute. reflexivity.
  - simpl. lia.
Defined.

(** X8.  A record that lists its own id becomes its own child, and from
    then on collecting the clickable elements of that node, or of any node
    above it, never returns, whatever the fuel. *)
Theorem self_listed_node_is_never_collected (evalPage : EvalPage.t) (root : NodeRef)
    (sm : SelectorMap) (h : Store) (id : string) (d : RawElement) :
  NoDup (keys (EvalPage.map evalPage)) ->
  DOMService.constructDOMTree evalPage = Ok (root, sm, h) ->
  (id, RawElem d) ∈ EvalPage.map evalPage ->
  id ∈ default [] (raw_children d) ->
  id ∈ children_of h id
  /\ forall r, r = id \/ descendant h r id ->
     forall fuel, ClickableElementProcessor.getClickableElements fuel h r = None.
Proof.
  intros Hnd (-> & -> & -> & _)%construct_ok Hin Hself.
  assert (Hchild : id ∈ children_of (DOMService.build (EvalPage.map evalPage)).1 id).
  { pose proof Hin as Hes.
    apply Object_entries_elem, list_elem_of_split in Hes as (pre & post & Hes).
    rewrite (build_children _ pre id d post Hnd Hes).
    apply list_elem_of_In, filter_In. split; [by apply list_elem_of_In|].
    by rewrite String.eqb_refl. }
  assert (Hel : is_element (DOMService.build (EvalPage.map evalPage)).1 id = true).
  { apply kind_is_element_true. by eapply build_kind_present. }
  split; [done|].
  assert (Hnone : forall fuel,
            ClickableElementProcessor.getClickableElements fuel
              (DOMService.build (EvalPage.map evalPage)).1 id = None)
    by (by apply getClickableElements_self_child).
  intros r [->|Hdesc]; [done|]. by eapply getClickableElements_above_None.
Qed.

Lemma self_listed_node_is_never_collected_witness :
  "0" ∈ children_of self_listing_store "0"
  /\ forall r, r = "0" \/ descendant self_listing_store r "0" ->
     forall fuel,
       ClickableElementProcessor.getClickableElements fuel self_listing_store r = None.
Proof.
  apply (self_listed_node_is_never_collected self_listing_page "0" ∅
           self_listing_store "0" (body_record ["0"])).
  - apply (bool_decide_unpack _). vm_compute. exact I.
  - vm_compute. reflexivity.
  - simpl. left.
  - simpl. left.
Defined.

(** ** The selector map of the browser context *)

(** X9.  For a raw table with distinct ids and without [null] records,
    whose highlight indices are numbers where present, the selector map
    filled by [BrowserContext.getState] has the same keys as the
    one returned by [constructDOMTree], and under each key it stores the tag
    name, attributes, visibility and interactivity of the element node that
    the other map names. *)
Theorem context_selector_map_agrees (evalPage : EvalPage.t) (root : NodeRef)
    (sm : SelectorMap) (h : Store) :
  NoDup (keys (EvalPage.map evalPage)) ->
  Forall (fun kv => live kv.2 = true) (EvalPage.map evalPage) ->
  DOMService.constructDOMTree evalPage = Ok (root, sm, h) ->
  forall i,
    (forall id,
       sm !! i = Some id ->
       exists el,
         h !! id = Some (ElementNode el)
         /\ BrowserContext.getState_selectorMap (EvalPage.map evalPage) !! i
            = Some {| ce_tagName := tagName el;
                      ce_attributes := attributes el;
                      ce_isVisible := isVisible el;
                      ce_isInteractive := default false (isInteractive el) |})
    /\ (sm !! i = None ->
        BrowserContext.getState_selectorMap (EvalPage.map evalPage) !! i = None).
Proof.
  intros Hnd Hlive (-> & -> & -> & _)%construct_ok i.
  assert (Hpop : BrowserContext.getState_selectorMap (EvalPage.map evalPage)
                 = fold_left (assign (fun _ d => context_entry d))
                     (Object_entries (EvalPage.map evalPage)) ∅).
  { unfold BrowserContext.getState_selectorMap. apply populate_assign.
    rewrite Forall_forall in *. intros kv Hkv. apply Hlive.
    by apply Object_entries_elem. }
  rewrite Hpop. split.
  - intros id [d Hlast]%build_selector.
    pose proof (last_with_index_elem _ _ _ _ Hlast) as Hin.
    apply (proj1 (Object_entries_elem _ _)) in Hin.
    pose proof Hlast as (_ & _ & _ & Hi & _).
    destruct (raw_index_elem d i Hi) as [e ->].
    pose proof (build_static _ _ _ Hnd Hin) as Hst. simpl in Hst.
    apply static_lookup_element in Hst
      as (el & Hel & Htag & _ & Hattr & Hvis & Hint & _).
    exists el. split; [done|]. simpl in *.
    apply fold_assign_lookup. left. exists id, (RawElem e). split; [done|].
    simpl. rewrite Htag, Hattr, Hvis, Hint. done.
  - intros Hnone. apply eq_None_not_Some. intros [v Hv].
    apply fold_assign_lookup in Hv as [(id & d & Hlast & _)|[_ Hv]];
      [|by rewrite lookup_empty in Hv].
    assert (Hsm : (DOMService.build (EvalPage.map evalPage)).2 !! i = Some id)
      by (apply build_selector; eauto).
    congruence.
Qed.

Lemma context_selector_map_agrees_witness :
  (forall id,
     ({[ 0%Z := "0" ]} : SelectorMap) !! 0%Z = Some id ->
     exists el,
       page_store !! id = Some (ElementNode el)
       /\ BrowserContext.getState_selectorMap (EvalPage.map children_first_page) !! 0%Z
          = Some {| ce_tagName := tagName el;
                    ce_attributes := attributes el;
                    ce_isVisible := isVisible el;
                    ce_isInteractive := default false (isInteractive el) |})
  /\ (({[ 0%Z := "0" ]} : SelectorMap) !! 0%Z = None ->
      BrowserContext.getState_selectorMap (EvalPage.map children_first_page) !! 0%Z
      = None).
Proof.
  apply (context_selector_map_agrees children_first_page "1" {[ 0%Z := "0" ]} page_store).
  - apply (bool_decide_unpack _). vm_compute. exact I.
  - by repeat constructor.
  - vm_compute. reflexivity.
Defined.

(** ** Fingerprints, lookup and comparison *)

(** X10.  The fingerprint of an element depends only on the tag names on
    its branch below the root, on its attribute entries in enumeration order
    and on its xpath: two elements, in the same tree or in two trees, that
    agree on these three have the same three hash components and the same
    clickable-element hash, whatever their highlight index, children or
    flags; the history record of one is accepted for the other. *)
Theorem fingerprint_depends_on_path_attributes_xpath
    (h1 h2 : Store) (e1 e2 : NodeRef) (el1 el2 : DOMElementNode)
    (l1 l2 : list NodeRef) (fuel1 fuel2 : nat) :
  h1 !! e1 = Some (ElementNode el1) -> lineage h1 e1 l1 -> (length l1 <= fuel1)%nat ->
  h2 !! e2 = Some (ElementNode el2) -> lineage h2 e2 l2 -> (length l2 <= fuel2)%nat ->
  tail (spec_branchPath h1 l1) = tail (spec_branchPath h2 l2) ->
  Object_entries (attributes el1) = Object_entries (attributes el2) ->
  xpath el1 = xpath el2 ->
  HistoryTreeProcessor._hashDomElement fuel1 h1 e1
    = HistoryTreeProcessor._hashDomElement fuel2 h2 e2
  /\ ClickableElementProcessor.hashDomElement fuel1 h1 e1
     = ClickableElementProcessor.hashDomElement fuel2 h2 e2
  /\ exists d,
       HistoryTreeProcessor.convertDomElementToHistoryElement fuel1 h1 e1 = Some d
       /\ HistoryTreeProcessor.compareHistoryElementAndDomElement fuel2 h2 d e2
          = Some true.
Proof.
  intros He1 Hl1 Hf1 He2 Hl2 Hf2 Hpath Hattr Hxpath.
  pose proof (hashDomElement_lineage h1 e1 el1 l1 fuel1 He1 Hl1 Hf1) as H1.
  pose proof (hashDomElement_lineage h2 e2 el2 l2 fuel2 He2 Hl2 Hf2) as H2.
  assert (Heq : HistoryTreeProcessor._hashDomElement fuel1 h1 e1
                = HistoryTreeProcessor._hashDomElement fuel2 h2 e2).
  { rewrite H1, H2, Hpath, Hxpath.
    unfold HistoryTreeProcessor._attributesHash, HistoryTreeProcessor.attributesString.
    by rewrite Hattr. }
  split; [done|]. split.
  - rewrite (hashDomElement_composite _ _ _ _ H1).
    rewrite Heq in H1. by rewrite (hashDomElement_composite _ _ _ _ H1).
  - eexists. split; [by eapply convert_lineage|].
    rewrite (compare_hashes _ _ _ _ _ H2). f_equal.
    apply hashes_equal_eq.
    unfold HistoryTreeProcessor._hashDomHistoryElement; simpl.
    rewrite Hpath, Hxpath.
    unfold HistoryTreeProcessor._attributesHash, HistoryTreeProcessor.attributesString.
    by rewrite Hattr.
Qed.

Lemma fingerprint_depends_on_path_attributes_xpath_witness :
  HistoryTreeProcessor._hashDomElement 2 page_store "0"
    = HistoryTreeProcessor._hashDomElement 3 page_store_root_highlighted "0"
  /\ ClickableElementProcessor.hashDomElement 2 page_store "0"
     = ClickableElementProcessor.hashDomElement 3 page_store_root_highlighted "0"
  /\ exists d,
       HistoryTreeProcessor.convertDomElementToHistoryElement 2 page_store "0" = Some d
       /\ HistoryTreeProcessor.compareHistoryElementAndDomElement 3
            page_store_root_highlighted d "0" = Some true.
Proof.
  apply (fingerprint_depends_on_path_attributes_xpath page_store
           page_store_root_highlighted "0" "0" (button_node (Some "1"))
           (button_node (Some "1")) ["0"; "1"] ["0"; "1"] 2 3).
  - reflexivity.
  - exact page_store_lineage.
  - simpl. lia.
  - reflexivity.
  - apply lineage_step with "1"; [reflexivity|]. apply lineage_root. reflexivity.
  - simpl. lia.
  - reflexivity.
  - reflexivity.
  - reflexivity.
Defined.





(** X13.  On a tree built from a page table with distinct ids, every
    element the clickable collector returns carries a highlight index that
    is a key of the selector map; when no other record of the table carries
    the same index, the selector map sends that index to the element
    itself. *)
Theorem collected_elements_are_selector_map_keys
    (evalPage : EvalPage.t) (root n : NodeRef) (sm : SelectorMap) (h : Store)
    (fuel : nat) (els : list NodeRef) :
  NoDup (keys (EvalPage.map evalPage)) ->
  DOMService.constructDOMTree evalPage = Ok (root, sm, h) ->
  ClickableElementProcessor.getClickableElements fuel h root = Some els ->
  n ∈ els ->
  exists i el,
    h !! n = Some (ElementNode el) /\ highlightIndex el = Some i
    /\ is_Some (sm !! i)
    /\ ((forall id d, (id, d) ∈ EvalPage.map evalPage -> raw_index d = Some i -> id = n) ->
        sm !! i = Some n).
Proof.
  intros Hnd Hc Hg Hin.
  apply construct_ok in Hc as (_ & Hh & Hsm & _).
  pose proof (getClickableElements_highlighted fuel h root els Hg) as Hall.
  rewrite Forall_forall in Hall. pose proof (Hall n Hin) as Hhi.
  unfold highlighted, highlightIndex_of in Hhi.
  destruct (h !! n) as [[el|t]|] eqn:Hn; try done. simpl in Hhi.
  destruct (highlightIndex el) as [i|] eqn:Hi; [|done].
  exists i, el. split; [done|]. split; [done|].
  subst h. destruct (build_highlighted_has_entry _ _ _ _ Hnd Hn Hi) as (id2 & d2 & Hlast).
  assert (Hsel : sm !! i = Some id2).
  { subst sm. apply build_selector. eauto. }
  split; [rewrite Hsel; eauto|].
  intros Huniq. rewrite Hsel. f_equal.
  pose proof (last_with_index_elem _ _ _ _ Hlast) as Hel.
  destruct Hlast as (pre & post & _ & Hidx & _).
  apply (Huniq id2 d2); [|done].
  by apply (proj1 (Object_entries_elem _ _)) in Hel.
Qed.

Lemma collected_elements_are_selector_map_keys_witness :
  exists i el,
    page_store !! "0" = Some (ElementNode el) /\ highlightIndex el = Some i
    /\ is_Some (({[ 0%Z := "0" ]} : SelectorMap) !! i)
    /\ ((forall id d,
           (id, d) ∈ EvalPage.map children_first_page -> raw_index d = Some i -> id = "0") ->
        ({[ 0%Z := "0" ]} : SelectorMap) !! i = Some "0").
Proof.
  apply (collected_elements_are_selector_map_keys children_first_page "1" "0"
           {[ 0%Z := "0" ]} page_store 4 ["0"]).
  - apply (bool_decide_unpack _). vm_compute. exact I.
  - vm_compute. reflexivity.
  - vm_compute. reflexivity.
  - apply (bool_decide_unpack _). vm_compute. exact I.
Defined.





(** X16.  [hasParentWithHighlightIndex] answers whether one of the nodes
    strictly above the given node, on its way to the top along the parent
    links, carries a highlight index; the node's own index plays no part. *)
Theorem has_parent_with_highlight_index_on_lineage (h : Store) (n : NodeRef)
    (l : list NodeRef) (fuel : nat) :
  lineage h n l -> (length l <= fuel)%nat ->
  DomIndex.hasParentWithHighlightIndex fuel h n
  = Some (existsb (highlighted h) (tail l)).
Proof. apply hasParent_lineage. Qed.

Lemma has_parent_with_highlight_index_on_lineage_witness :
  DomIndex.hasParentWithHighlightIndex 3 form_store "t"
  = Some (existsb (highlighted form_store) (tail ["t"; "b"; "r"])).
Proof.
  apply (has_parent_with_highlight_index_on_lineage form_store "t" ["t"; "b"; "r"] 3).
  - apply lineage_step with "b"; [reflexivity|].
    apply lineage_step with "r"; [reflexivity|]. apply lineage_root. reflexivity.
  - simpl. lia.
Defined.



(** X18.  [findElements] adapts the root of the snapshot into a node
    without children, so the predicate is tested on that one node only:
    the result is empty or holds the adapted root alone, whatever lies
    below the root; [findElementById] accordingly answers with the adapted
    root when the root's own [id] attribute is the one asked for, and with
    nothing otherwise. *)
Theorem find_elements_tests_only_the_root (tree : SimplifiedDOMTree)
    (p : DOMElementNode -> bool) (id : string) (fuel : nat) :
  DomIndex.findElements (S fuel) tree (fun element => Some (p element))
  = Some (if p (DomIndex.adaptDOMElement (tree_root tree))
          then [DomIndex.adaptDOMElement (tree_root tree)] else [])
  /\ DomIndex.findElementById (S fuel) tree id
     = Some (match obj_get "id" (default [] (el_attributes (tree_root tree))) with
             | Some v =>
                 if String.eqb v id
                 then Some (DomIndex.adaptDOMElement (tree_root tree)) else None
             | None => None
             end).
Proof.
  unfold DomIndex.findElementById, DomIndex.findElements.
  set (adaptedRoot := DomIndex.adaptDOMElement (tree_root tree)).
  cbn [DomIndex.traverse].
  split.
  - by destruct (p adaptedRoot).
  - change (attributes adaptedRoot) with (default [] (el_attributes (tree_root tree))).
    destruct (obj_get "id" _) as [v|]; [|done]. by destruct (String.eqb v id).
Qed.

(** X19.  [findElementsByText] finds nothing: the text of the adapted
    root, which has no children, is empty, and an empty text never
    matches, whatever text is asked for and whether or not the match is
    exact. *)
Theorem find_elements_by_text_finds_nothing (tree : SimplifiedDOMTree) (txt : string)
    (exact : bool) (fuel : nat) :
  DomIndex.findElementsByText (S fuel) tree txt exact = Some [].
Proof.
  unfold DomIndex.findElementsByText, DomIndex.findElements.
  cbn [DomIndex.traverse DomIndex.getElementText]. reflexivity.
Qed.

(** X20.  When the root id names an element record, a child id that is
    neither a key of the raw table nor a name inherited from
    [Object.prototype] never makes construction fail: the tree is returned,
    the id appears in no node's realized children, and the result is the one
    obtained from the table with that id taken out of every child-id list.
    The inherited names are the only ids without record that are kept. *)
Theorem absent_child_id_is_dropped (tbl : JSObject RawNode) (root x : string)
    (d : RawElement) :
  NoDup (keys tbl) -> plain_table tbl -> (root, RawElem d) ∈ tbl ->
  x ∉ keys tbl -> x ∉ DOMService.Object_prototype_names ->
  exists sm h,
    DOMService.constructDOMTree {| EvalPage.map := tbl; EvalPage.rootId := root |}
      = Ok (root, sm, h)
    /\ (forall p, x ∉ children_of h p)
    /\ (forall p c, c ∈ children_of h p ->
          c ∈ keys tbl \/ c ∈ DOMService.Object_prototype_names)
    /\ DOMService.constructDOMTree
         {| EvalPage.map := drop_child_id_everywhere x tbl; EvalPage.rootId := root |}
       = Ok (root, sm, h).
Proof.
  intros Hnd _ Hroot Hx Hname.
  pose proof (build_kind_present tbl root (RawElem d) true Hnd Hroot eq_refl) as Hkind.
  assert (Hknown : forall p c, c ∈ children_of (DOMService.build tbl).1 p ->
                     c ∈ keys tbl \/ c ∈ DOMService.Object_prototype_names).
  { intros p c Hc. destruct (build_children_known tbl Hnd p c Hc) as [Hnode|?]; [|by right].
    left. by apply build_node_key. }
  unfold DOMService.constructDOMTree. simpl.
  rewrite (build_drop x tbl Hx Hname).
  destruct (DOMService.build tbl) as [nodeMap selectorMap]. simpl in *.
  exists selectorMap, nodeMap.
  destruct (nodeMap !! root) as [[el|t]|]; try discriminate Hkind.
  split; [done|]. split; [|done].
  intros p Hc. by destruct (Hknown p x Hc).
Qed.

Lemma absent_child_id_is_dropped_witness :
  exists sm h,
    DOMService.constructDOMTree
      {| EvalPage.map := EvalPage.map dangling_page; EvalPage.rootId := "1" |}
      = Ok ("1", sm, h)
    /\ (forall p, "9" ∉ children_of h p)
    /\ (forall p c, c ∈ children_of h p ->
          c ∈ keys (EvalPage.map dangling_page)
          \/ c ∈ DOMService.Object_prototype_names)
    /\ DOMService.constructDOMTree
         {| EvalPage.map := drop_child_id_everywhere "9" (EvalPage.map dangling_page);
            EvalPage.rootId := "1" |}
       = Ok ("1", sm, h).
Proof.
  apply (absent_child_id_is_dropped (EvalPage.map dangling_page) "1" "9"
           (body_record ["0"; "9"])).
  - apply (bool_decide_unpack _). vm_compute. exact I.
  - split; apply (bool_decide_unpack _); vm_compute; exact I.
  - simpl. right. left.
  - apply (bool_decide_unpack _). vm_compute. exact I.
  - apply (bool_decide_unpack _). vm_compute. exact I.
Defined.
